(** * ParityCheck: two-dimensional parity headers and single-bit repair

    A shallow embedding of [parity_checking.hpp] / [parity_checking.cc]
    (namespace [ParityChecking]) together with the properties of the
    parity header, its wire format and the repair routine.

    Conventions of the embedding
    - [unsigned char], [unsigned short], [unsigned int] and [int] values are
      integers in [Z]; every conversion to one of these types is written out
      ([u8], [u16], [u32], [s32]).  Signed overflow of [int] is undefined in
      C++; the model takes the two's complement result the usual targets
      compute.
    - a byte array reached through a pointer is a [list Z]; [nullptr] is the
      empty list.  A read outside the array yields 0 and a write outside it
      does nothing (the source has undefined behaviour there).
    - the object representation copied by [memcpy(.., this, 8)] is the
      little-endian image of [check_sum] (4 bytes), [B] (2 bytes) and
      [N] (2 bytes), in declaration order.
    - a member function that mutates [*this] or the buffer returns the new
      state next to its result; a thrown exception is a returned value. *)

From Stdlib Require Import ZArith String Lia Sorted.
From stdpp Require Import base tactics option list list_numbers strings.

Local Open Scope Z_scope.

(** ** Machine integers *)

Definition u8 (z : Z) : Z := z mod 256.
Definition u16 (z : Z) : Z := z mod 65536.
Definition u32 (z : Z) : Z := z mod 4294967296.
Definition s32 (z : Z) : Z := (z + 2147483648) mod 4294967296 - 2147483648.

Definition INT_MAX : Z := 2147483647.

(** ** Byte arrays *)

(** [a[i]] *)
Definition get (a : list Z) (i : Z) : Z :=
  if i <? 0 then 0 else default 0 (a !! Z.to_nat i).

(** [a[i] ^= v] on an array of [unsigned char] *)
Definition xor_at (a : list Z) (i v : Z) : list Z :=
  if i <? 0 then a else alter (fun x => u8 (Z.lxor x v)) (Z.to_nat i) a.

(** the [n] bytes at [a + off], as [memcpy] and [memcmp] read them *)
Definition read_bytes (a : list Z) (off n : Z) : list Z :=
  (fun i => get a (off + i)) <$> seqZ 0 n.

(** [memset(_, 0, n)] on a freshly allocated array of [n] bytes *)
Definition zeros (n : Z) : list Z := replicate (Z.to_nat n) 0.

(** little-endian image of an unsigned integer on [n] bytes *)
Fixpoint le_bytes (n : nat) (z : Z) : list Z :=
  match n with
  | O => []
  | S n' => z mod 256 :: le_bytes n' (z / 256)
  end.

(** the unsigned integer whose little-endian image is [bs] *)
Fixpoint le_value (bs : list Z) : Z :=
  match bs with
  | [] => 0
  | b :: bs' => b + 256 * le_value bs'
  end.

(** ** The header *)

Record ParityHdr : Type := mkHdr {
  check_sum : Z;            (* unsigned int   *)
  B : Z;                    (* unsigned short *)
  N : Z;                    (* unsigned short *)
  row_parities : list Z;    (* unsigned char* *)
  col_parities : list Z     (* unsigned char* *)
}.

#[global] Instance ParityHdr_eq_dec : EqDecision ParityHdr.
Proof. solve_decision. Defined.

(** [ParityHdr::ParityHdr()] *)
Definition ParityHdr_default : ParityHdr := mkHdr 0 0 0 [] [].

(** [ParityHdr::byte_parity]: eight rounds of [p ^= c & 1; c >>= 1]. *)
Fixpoint byte_parity_loop (n : nat) (p c : Z) : Z :=
  match n with
  | O => p
  | S n' => byte_parity_loop n' (u8 (Z.lxor p (Z.land c 1))) (u8 (Z.shiftr c 1))
  end.

Definition byte_parity (c : Z) : Z := byte_parity_loop 8 0 c.

(** One round of the loop of [ParityHdr::calculate_parities]. *)
Definition calculate_parities_step (byte_array : list Z) (b : Z)
    (st : list Z * list Z) (i : Z) : list Z * list Z :=
  (xor_at st.1 (Z.rem i b) (get byte_array i),
   xor_at st.2 (Z.quot i b) (byte_parity (get byte_array i))).

(** [ParityHdr::calculate_parities]; [int L = B * N] is an [int] product. *)
Definition calculate_parities (b n : Z) (byte_array : list Z) : list Z * list Z :=
  let L := s32 (b * n) in
  foldl (calculate_parities_step byte_array b) (zeros b, zeros n) (seqZ 0 L).

(** [chk_sum += a[i]] for [i] in [0, n) *)
Definition add_bytes (a : list Z) (off n : Z) (chk_sum : Z) : Z :=
  foldl (fun s i => u32 (s + get a (off + i))) chk_sum (seqZ 0 n).

(** [ParityHdr::calc_check_sum] *)
Definition calc_check_sum (h : ParityHdr) : Z :=
  let chk_sum := u32 (B h + N h) in
  let chk_sum := add_bytes (row_parities h) 0 (B h) chk_sum in
  add_bytes (col_parities h) 0 (N h) chk_sum.

(** [ParityHdr::confirm_check_sum] *)
Definition confirm_check_sum (h : ParityHdr) : bool :=
  check_sum h =? calc_check_sum h.

(** [ParityHdr::ParityHdr(B, N, byte_array)] *)
Definition ParityHdr_of (b n : Z) (byte_array : list Z) : ParityHdr :=
  let b := u16 b in
  let n := u16 n in
  let rc := calculate_parities b n byte_array in
  let h := mkHdr 0 b n rc.1 rc.2 in
  mkHdr (calc_check_sum h) b n rc.1 rc.2.

(** [operator==] *)
Definition hdr_eq (lhs rhs : ParityHdr) : bool :=
  if negb (check_sum lhs =? check_sum rhs) || negb (B lhs =? B rhs)
     || negb (N lhs =? N rhs) then false
  else if negb (bool_decide (read_bytes (row_parities lhs) 0 (B lhs)
                             = read_bytes (row_parities rhs) 0 (B lhs))) then false
  else if negb (bool_decide (read_bytes (col_parities lhs) 0 (N lhs)
                             = read_bytes (col_parities rhs) 0 (N lhs))) then false
  else true.

(** ** Wire codec *)

(** the first [sizeof(int) + 2 * sizeof(short)] bytes of the object *)
Definition obj_prefix (h : ParityHdr) : list Z :=
  le_bytes 4 (check_sum h) ++ le_bytes 2 (B h) ++ le_bytes 2 (N h).

(** [ParityHdr::serialize] *)
Definition serialize (h : ParityHdr) : list Z :=
  let sum_row_parities := add_bytes (row_parities h) 0 (B h) 0 in
  obj_prefix h ++ obj_prefix h ++ le_bytes 4 sum_row_parities
    ++ read_bytes (row_parities h) 0 (B h)
    ++ read_bytes (col_parities h) 0 (N h).

(** [ParityHdr::load_from_serialized]: the result and the header afterwards. *)
Definition load_from_serialized (h : ParityHdr) (ser_PH : list Z)
    : bool * ParityHdr :=
  if negb (bool_decide (read_bytes ser_PH 0 8 = read_bytes ser_PH 8 8))
  then (false, h)
  else
    let h1 := mkHdr (le_value (read_bytes ser_PH 0 4))
                    (le_value (read_bytes ser_PH 4 2))
                    (le_value (read_bytes ser_PH 6 2))
                    (row_parities h) (col_parities h) in
    if u32 (B h1 + N h1) >? check_sum h1 then (false, h1)
    else
      let sum_row_parities := add_bytes ser_PH 20 (B h1) 0 in
      if negb (sum_row_parities =? le_value (read_bytes ser_PH 16 4))
      then (false, h1)
      else
        let h2 := mkHdr (check_sum h1) (B h1) (N h1)
                        (read_bytes ser_PH 20 (B h1))
                        (read_bytes ser_PH (20 + B h1) (N h1)) in
        (confirm_check_sum h2, h2).

(** ** Repair *)

(** The two exception classes of the source, with their [what()] text. *)
Inductive exn : Type :=
  | runtime_error (what : string)
  | PC_Exception (what : string).

#[global] Instance exn_eq_dec : EqDecision exn.
Proof. solve_decision. Defined.

Definition nl : string := String (Ascii.ascii_of_nat 10) EmptyString.

Definition BadCheckSum : exn :=
  runtime_error "BadCheckSum() in repair_byte_array".
Definition DimensionMismatch : exn :=
  runtime_error "ParityHdr DimensionMismatch in repair_byte_array.".
Definition NoColumn : exn :=
  PC_Exception ("In find_error_locations, Couldn't locate a col with a parity mismatch." +:+ nl).
Definition ManyColumns : exn :=
  PC_Exception ("In find_error_locations, More than 1 col had a parity mismatch." +:+ nl).
Definition NoRow : exn :=
  PC_Exception ("In find_error_locations, Couldn't locate a row with a parity mismatch." +:+ nl).
Definition ManyRows : exn :=
  PC_Exception ("In find_error_locations, More than 1 row had a parity mismatch." +:+ nl).
Definition ManyBits : exn :=
  PC_Exception ("In find_error_locations, More than 1 bad bit found in the bad byte." +:+ nl).

(** The two scanning loops of [find_error_locations]: the state is
    [(n_errors, last mismatching index)]. *)
Definition scan_step (a b : list Z) (st : Z * Z) (k : Z) : Z * Z :=
  if negb (get a k =? get b k) then (s32 (st.1 + 1), k) else st.

Definition scan (a b : list Z) (n : Z) (start : Z) : Z * Z :=
  foldl (scan_step a b) (0, start) (seqZ 0 n).

(** The bit loop of [find_error_locations]: the state is
    [(flips, flipped_bit, cnt)]. *)
Definition bit_step (st : Z * Z * Z) (b : Z) : Z * Z * Z :=
  let '(flips, flipped_bit, cnt) := st in
  if negb (Z.land 128 flips =? 0)
  then (u8 (Z.shiftl flips 1), b, s32 (cnt + 1))
  else (u8 (Z.shiftl flips 1), flipped_bit, cnt).

Definition bit_scan (flips : Z) : Z * Z * Z :=
  foldl bit_step (flips, -1, 0) (seqZ 0 8).

(** [find_error_locations]; the out-parameters [*i], [*j] are returned. *)
Definition find_error_locations (rcvd_hdr t_hdr : ParityHdr) (i j : Z)
    : exn + (Z * Z) :=
  let '(n_errors, j) :=
    scan (col_parities rcvd_hdr) (col_parities t_hdr) (N rcvd_hdr) j in
  if n_errors =? 0 then inl NoColumn
  else if n_errors >? 1 then inl ManyColumns
  else
    let '(n_errors, i) :=
      scan (row_parities rcvd_hdr) (row_parities t_hdr) (B rcvd_hdr) i in
    if n_errors =? 0 then inl NoRow
    else if n_errors >? 1 then inl ManyRows
    else
      let flips :=
        u8 (Z.lxor (get (row_parities rcvd_hdr) i) (get (row_parities t_hdr) i)) in
      let '(_, flipped_bit, cnt) := bit_scan flips in
      if negb (cnt =? 1) then inl ManyBits
      else inr (s32 (s32 (8 * i) + flipped_bit), j).

(** [repair_byte_array]: the exception thrown, if any, and the buffer [t]
    afterwards. *)
Definition repair_byte_array (rcvd_hdr t_hdr : ParityHdr) (t : list Z)
    : option exn * list Z :=
  if negb (confirm_check_sum rcvd_hdr) then (Some BadCheckSum, t)
  else if hdr_eq rcvd_hdr t_hdr then (None, t)
  else if negb (B rcvd_hdr =? B t_hdr) || negb (N rcvd_hdr =? N t_hdr)
  then (Some DimensionMismatch, t)
  else
    match find_error_locations rcvd_hdr t_hdr (-1) (-1) with
    | inl e => (Some e, t)
    | inr (i, j) =>
        (None, xor_at t (s32 (s32 (j * B rcvd_hdr) + Z.quot i 8))
                      (Z.shiftr 128 (Z.rem i 8)))
    end.

(** ** Accessors and inequality *)

(** [getB], [getN]: the dimensions as [unsigned int] *)
Definition getB (h : ParityHdr) : Z := u32 (B h).
Definition getN (h : ParityHdr) : Z := u32 (N h).

(** [operator!=] *)
Definition hdr_neq (lhs rhs : ParityHdr) : bool := negb (hdr_eq lhs rhs).

(** ** The demonstration driver ([demo1_main.cc])

    [transmit] draws from a random generator and [main] prints; the model
    takes what is random as an argument and leaves the printing out.  The
    buffer size and contents that [main] fixes ([B = N = 100], bytes [0xfe])
    are arguments too. *)

Definition u64 (z : Z) : Z := z mod 18446744073709551616.

(** The loop of [transmit]: [samples] are the successive values of
    [geom(gen)]; [idx] is an [int], compared with the [size_t] value
    [8 * len].  [None]: the loop is still running when the samples end. *)
Fixpoint transmit_loop (samples : list Z) (len : Z) (idx : Z) (s : list Z)
    : option (list Z) :=
  match samples with
  | [] => if u64 idx <? u64 (8 * len) then None else Some s
  | g :: samples' =>
      if u64 idx <? u64 (8 * len) then
        let idx := s32 (idx + g) in
        let s := if u64 idx <? u64 (8 * len)
                 then xor_at s (Z.quot idx 8) (Z.shiftr 128 (Z.rem idx 8))
                 else s in
        transmit_loop samples' len idx s
      else Some s
  end.

(** [transmit]; [quiet] is the outcome of [ERROR_RATE < 1.e-9 / len]. *)
Definition transmit (quiet : bool) (samples : list Z) (cs : list Z) (len : Z)
    : option (list Z) :=
  let s := read_bytes cs 0 len in
  if quiet then Some s else transmit_loop samples len 0 s.

Definition MAX_HDR_TRYS : Z := 30.
Definition MAX_TRYS : Z := 30.

(** The first loop of [main]: [received k] is what [transmit] returned when
    [n_transmits] was [k].  The result is [n_transmits] and [rcvd_hdr] when
    the loop is left. *)
Fixpoint header_loop (fuel : nat) (received : Z -> list Z) (n_transmits : Z)
    (rcvd_hdr : ParityHdr) : Z * ParityHdr :=
  match fuel with
  | O => (n_transmits, rcvd_hdr)
  | S fuel' =>
      if n_transmits <? MAX_HDR_TRYS then
        let r := load_from_serialized rcvd_hdr (received n_transmits) in
        if r.1 then (n_transmits, r.2)
        else header_loop fuel' received (s32 (n_transmits + 1)) r.2
      else (n_transmits, rcvd_hdr)
  end.

(** The reception of the header in [main]: [None] is [std::exit(1)]. *)
Definition receive_header (received : Z -> list Z) : option ParityHdr :=
  let r := header_loop 30 received 1 ParityHdr_default in
  if r.1 >=? MAX_HDR_TRYS then None else Some r.2.

(** The body of the second loop of [main] once [t] has arrived: the header
    of [t] is derived with the dimensions of [rcvd_hdr], compared with it,
    and [t] is repaired when they differ. *)
Definition attempt (rcvd_hdr : ParityHdr) (t : list Z) : option exn * list Z :=
  let t_hdr := ParityHdr_of (getB rcvd_hdr) (getN rcvd_hdr) t in
  if hdr_eq t_hdr rcvd_hdr then (None, t)
  else repair_byte_array rcvd_hdr t_hdr t.

(** How [main] goes on after the second loop. *)
Inductive reception : Type :=
  | Too_many_attempts                (* [std::exit(1)] *)
  | Terminated (e : exn)             (* an exception [main] does not catch *)
  | Received (t : list Z).

(** The second loop of [main]: [received k] is what [transmit] returned when
    [n_trys] had become [k].  Only a [PC_Exception] is caught. *)
Fixpoint buffer_loop (fuel : nat) (received : Z -> list Z) (rcvd_hdr : ParityHdr)
    (n_trys : Z) (t : list Z) : exn + (Z * list Z) :=
  match fuel with
  | O => inr (n_trys, t)
  | S fuel' =>
      if n_trys <? MAX_TRYS then
        let n_trys := s32 (n_trys + 1) in
        let t := received n_trys in
        match attempt rcvd_hdr t with
        | (None, t') => inr (n_trys, t')
        | (Some (PC_Exception _), t') =>
            buffer_loop fuel' received rcvd_hdr n_trys t'
        | (Some (runtime_error msg), _) => inl (runtime_error msg)
        end
      else inr (n_trys, t)
  end.

(** The reception of the byte array in [main]. *)
Definition receive_buffer (received : Z -> list Z) (rcvd_hdr : ParityHdr)
    : reception :=
  match buffer_loop 31 received rcvd_hdr 0 [] with
  | inl e => Terminated e
  | inr (n_trys, t) =>
      if n_trys >=? MAX_TRYS then Too_many_attempts else Received t
  end.

(** ** Specification-side notions *)

(** an [unsigned char] value *)
Definition is_byte (x : Z) : Prop := 0 <= x < 256.

(** XOR of a sequence of bytes *)
Definition xor_list (l : list Z) : Z := foldr Z.lxor 0 l.

(** sum of a sequence of bytes, without any wrap-around *)
Definition sum_list_Z (l : list Z) : Z := foldr Z.add 0 l.

(** A header whose fields have the ranges of their C++ types and whose two
    arrays have the sizes the dimensions announce. *)
Record well_formed (h : ParityHdr) : Prop := {
  wf_check_sum : 0 <= check_sum h < 4294967296;
  wf_B : 0 <= B h < 65536;
  wf_N : 0 <= N h < 65536;
  wf_rows : Z.of_nat (length (row_parities h)) = B h;
  wf_cols : Z.of_nat (length (col_parities h)) = N h;
  wf_row_bytes : Forall is_byte (row_parities h);
  wf_col_bytes : Forall is_byte (col_parities h)
}.

(** The parity of a byte as the XOR of its eight bits. *)
Definition bit_parity (x : Z) : Z :=
  xor_list ((fun k => Z.b2z (Z.testbit x k)) <$> seqZ 0 8).

(** The positions of a buffer. *)
Definition positions (byte_array : list Z) : list Z :=
  seqZ 0 (Z.of_nat (length byte_array)).

(** XOR of the bytes at the positions [i] with [i mod rows = r]. *)
Definition row_xor (rows r : Z) (byte_array : list Z) : Z :=
  xor_list (get byte_array
            <$> filter (fun i => i mod rows = r) (positions byte_array)).

(** XOR of the bit parities of the bytes at the positions [i] with
    [i / rows = c], the bytes of block [c]. *)
Definition col_xor (rows c : Z) (byte_array : list Z) : Z :=
  xor_list ((fun i => bit_parity (get byte_array i))
            <$> filter (fun i => i / rows = c) (positions byte_array)).

(** Flipping bit [idx] of a buffer, bits numbered from the most significant
    bit of byte 0: [s[idx / 8] ^= 0x80 >> idx % 8], the way the channel of
    the demonstration ([transmit]) damages a byte array. *)
Definition flip_bit (s : list Z) (idx : Z) : list Z :=
  xor_at s (Z.quot idx 8) (Z.shiftr 128 (Z.rem idx 8)).

Ltac bit_cases k :=
  let H := fresh in
  assert (H : k = 0 \/ k = 1 \/ k = 2 \/ k = 3 \/ k = 4 \/ k = 5 \/ k = 6 \/ k = 7)
    by lia;
  destruct H as [-> | [-> | [-> | [-> | [-> | [-> | [-> | ->]]]]]]].

(** number of bits set in a byte *)
Definition popcount8 (x : Z) : Z :=
  sum_list_Z ((fun k => Z.b2z (Z.testbit x k)) <$> seqZ 0 8).

(** number of bit positions at which two buffers differ *)
Definition bit_distance (s t : list Z) : Z :=
  sum_list_Z (zip_with (fun x y => popcount8 (Z.lxor x y)) s t).

Definition differs_in_one_bit (s t : list Z) : Prop :=
  length s = length t /\ bit_distance s t = 1.

(** The indices below [n] at which two parity arrays disagree. *)
Definition mismatches (a b : list Z) (n : Z) : list Z :=
  filter (fun k => get a k <> get b k) (seqZ 0 n).

(** The text an exception carries, [what()]. *)
Definition what (e : exn) : string :=
  match e with
  | runtime_error msg => msg
  | PC_Exception msg => msg
  end.

(** The failures [repair_byte_array] can end in. *)
Definition repair_failures : list exn :=
  [BadCheckSum; DimensionMismatch; NoColumn; ManyColumns; NoRow; ManyRows;
   ManyBits].

(** A parity bit: 0 or 1. *)
Definition is_bit (x : Z) : Prop := x = 0 \/ x = 1.

(** The checks of [load_from_serialized], in the order it makes them. *)
Definition prefix_ok (ser_PH : list Z) : bool :=
  bool_decide (read_bytes ser_PH 0 8 = read_bytes ser_PH 8 8).

Definition dims_ok (ser_PH : list Z) : bool :=
  negb (u32 (le_value (read_bytes ser_PH 4 2) + le_value (read_bytes ser_PH 6 2))
        >? le_value (read_bytes ser_PH 0 4)).

Definition row_sum_ok (ser_PH : list Z) : bool :=
  add_bytes ser_PH 20 (le_value (read_bytes ser_PH 4 2)) 0
  =? le_value (read_bytes ser_PH 16 4).

(** The header after the first copy of the prefix has been adopted. *)
Definition adopted (h : ParityHdr) (ser_PH : list Z) : ParityHdr :=
  mkHdr (le_value (read_bytes ser_PH 0 4)) (le_value (read_bytes ser_PH 4 2))
        (le_value (read_bytes ser_PH 6 2)) (row_parities h) (col_parities h).

(** The header whose five fields all come from the byte sequence. *)
Definition loaded (ser_PH : list Z) : ParityHdr :=
  let b := le_value (read_bytes ser_PH 4 2) in
  let n := le_value (read_bytes ser_PH 6 2) in
  mkHdr (le_value (read_bytes ser_PH 0 4)) b n
        (read_bytes ser_PH 20 b) (read_bytes ser_PH (20 + b) n).

(** A buffer with the bits of a list of positions flipped one after the
    other, as [transmit] leaves it. *)
Definition flip_bits (s : list Z) (l : list Z) : list Z := foldl flip_bit s l.

(** The change a flip at bit [idx] makes to the parity of row [r] and of
    column [c] of a buffer of [rows]-byte columns. *)
Definition row_error (rows r idx : Z) : Z :=
  if decide ((idx / 8) mod rows = r) then Z.shiftr 128 (idx mod 8) else 0.

Definition col_error (rows c idx : Z) : Z :=
  if decide ((idx / 8) / rows = c) then 1 else 0.

(** ** Tests on concrete inputs *)

Example byte_parity_7 : byte_parity 7 = 1.
Proof. reflexivity. Qed.

Example hdr_3x3_zero :
  ParityHdr_of 3 3 (replicate 9 0) = mkHdr 6 3 3 [0;0;0] [0;0;0].
Proof. reflexivity. Qed.

(** Nine zero bytes as 3 x 3, bit 3 of byte 4 flipped: the headers differ in
    column 1 and row 1, and repair flips the bit back. *)
Example repair_3x3 :
  let s := replicate 9 0 in
  let t := flip_bit s (8 * 4 + 3) in
  t = [0; 0; 0; 0; 16; 0; 0; 0; 0] /\
  mismatches (col_parities (ParityHdr_of 3 3 s)) (col_parities (ParityHdr_of 3 3 t)) 3 = [1] /\
  mismatches (row_parities (ParityHdr_of 3 3 s)) (row_parities (ParityHdr_of 3 3 t)) 3 = [1] /\
  repair_byte_array (ParityHdr_of 3 3 s) (ParityHdr_of 3 3 t) t = (None, s).
Proof. vm_compute. repeat split; reflexivity. Qed.

(** Two flips in different rows and columns are not repaired: the buffer is
    left as received. *)
Example repair_3x3_two_flips :
  let s := replicate 9 0 in
  let t := flip_bit (flip_bit s 0) (8 * 4 + 3) in
  repair_byte_array (ParityHdr_of 3 3 s) (ParityHdr_of 3 3 t) t
  = (Some ManyColumns, t).
Proof. vm_compute. reflexivity. Qed.

Example serialize_3x3 :
  serialize (ParityHdr_of 3 3 [1; 2; 3; 4; 5; 6; 7; 8; 9])
  = [36; 0; 0; 0; 3; 0; 3; 0;  36; 0; 0; 0; 3; 0; 3; 0;  29; 0; 0; 0;
     2; 15; 12;  0; 1; 0].
Proof. vm_compute. reflexivity. Qed.

(** ** Machine integers and array accesses *)

Lemma u8_id x : is_byte x -> u8 x = x.
Proof. unfold is_byte, u8. intros. apply Z.mod_small. lia. Qed.

Lemma u8_byte x : is_byte (u8 x).
Proof. unfold is_byte, u8. apply Z.mod_pos_bound. lia. Qed.

Lemma u16_id x : 0 <= x < 65536 -> u16 x = x.
Proof. unfold u16. intros. apply Z.mod_small. lia. Qed.

Lemma u16_range x : 0 <= u16 x < 65536.
Proof. unfold u16. apply Z.mod_pos_bound. lia. Qed.

Lemma u32_id x : 0 <= x < 4294967296 -> u32 x = x.
Proof. unfold u32. intros. apply Z.mod_small. lia. Qed.

Lemma u32_range x : 0 <= u32 x < 4294967296.
Proof. unfold u32. apply Z.mod_pos_bound. lia. Qed.

Lemma s32_id x : -2147483648 <= x <= INT_MAX -> s32 x = x.
Proof. unfold s32, INT_MAX. intros. rewrite Z.mod_small; lia. Qed.

Lemma get_lookup a i : 0 <= i -> get a i = default 0 (a !! Z.to_nat i).
Proof. unfold get. intros. destruct (Z.ltb_spec i 0); [lia | done]. Qed.

Lemma get_of_nat a (k : nat) : get a (Z.of_nat k) = default 0 (a !! k).
Proof. rewrite get_lookup by lia. by rewrite Nat2Z.id. Qed.

Lemma get_byte a i : Forall is_byte a -> is_byte (get a i).
Proof.
  intros Ha. unfold get. destruct (i <? 0); [unfold is_byte; lia |].
  destruct (a !! Z.to_nat i) as [x|] eqn:E; simpl; [| unfold is_byte; lia].
  eapply Forall_lookup_1; eauto.
Qed.

Lemma length_xor_at a i v : length (xor_at a i v) = length a.
Proof. unfold xor_at. destruct (i <? 0); [done |]. apply length_alter. Qed.

Lemma xor_at_byte a i v : Forall is_byte a -> Forall is_byte (xor_at a i v).
Proof.
  intros Ha. unfold xor_at. destruct (i <? 0); [done |].
  apply Forall_alter; [done |]. intros. apply u8_byte.
Qed.

(** Reading back after [a[i] ^= v], at an index inside the array. *)
Lemma get_xor_at a i v r :
  0 <= r < Z.of_nat (length a) ->
  get (xor_at a i v) r
  = if decide (i = r) then u8 (Z.lxor (get a r) v) else get a r.
Proof.
  intros Hr. unfold xor_at.
  destruct (Z.ltb_spec i 0) as [Hi|Hi].
  { case_decide; [lia | done]. }
  rewrite !get_lookup by lia.
  destruct (lookup_lt_is_Some_2 a (Z.to_nat r)) as [x Hx]; [lia |].
  case_decide as E.
  - subst i. rewrite list_lookup_alter_eq, Hx. done.
  - rewrite list_lookup_alter_ne by lia. done.
Qed.

Lemma length_zeros n : length (zeros n) = Z.to_nat n.
Proof. apply length_replicate. Qed.

Lemma zeros_byte n : Forall is_byte (zeros n).
Proof. apply Forall_replicate. unfold is_byte. lia. Qed.

Lemma get_zeros n i : get (zeros n) i = 0.
Proof.
  unfold get, zeros. destruct (i <? 0); [done |].
  destruct (replicate (Z.to_nat n) 0 !! Z.to_nat i) as [x|] eqn:E; [| done].
  apply lookup_replicate in E as [-> _]. done.
Qed.

Lemma length_read_bytes a off n : length (read_bytes a off n) = Z.to_nat n.
Proof. unfold read_bytes. rewrite length_fmap. apply length_seqZ. Qed.

Lemma lookup_read_bytes a off n (k : nat) :
  Z.of_nat k < n -> read_bytes a off n !! k = Some (get a (off + Z.of_nat k)).
Proof.
  intros Hk. unfold read_bytes. rewrite list_lookup_fmap, lookup_seqZ_lt by done.
  simpl. done.
Qed.

(** Reading a whole array gives the array. *)
Lemma read_bytes_all a : read_bytes a 0 (Z.of_nat (length a)) = a.
Proof.
  apply list_eq. intros k.
  destruct (decide (k < length a)%nat) as [Hk|Hk].
  - rewrite lookup_read_bytes by lia. rewrite Z.add_0_l, get_of_nat.
    destruct (lookup_lt_is_Some_2 a k Hk) as [x ->]. done.
  - rewrite !lookup_ge_None_2; [done | lia |].
    rewrite length_read_bytes. lia.
Qed.

Lemma read_bytes_byte a off n : Forall is_byte a -> Forall is_byte (read_bytes a off n).
Proof.
  intros Ha. unfold read_bytes. apply Forall_fmap, Forall_forall.
  intros x _. simpl. by apply get_byte.
Qed.

(** Reads inside the left or the right part of a concatenation. *)
Lemma get_app_l a1 a2 i :
  i < Z.of_nat (length a1) -> get (a1 ++ a2) i = get a1 i.
Proof.
  intros Hi. unfold get. destruct (i <? 0) eqn:E; [done |].
  apply Z.ltb_ge in E. rewrite lookup_app_l by lia. done.
Qed.

Lemma get_app_r a1 a2 i :
  0 <= i -> get (a1 ++ a2) (Z.of_nat (length a1) + i) = get a2 i.
Proof.
  intros Hi. rewrite !get_lookup by lia.
  rewrite lookup_app_r by lia. do 3 f_equal. lia.
Qed.

Lemma read_bytes_ext a a' off off' n :
  (forall i, 0 <= i < n -> get a (off + i) = get a' (off' + i)) ->
  read_bytes a off n = read_bytes a' off' n.
Proof.
  intros H. unfold read_bytes. apply list_fmap_ext.
  intros k x Hx. apply lookup_seqZ in Hx as [-> Hk]. apply H. lia.
Qed.

Lemma read_bytes_app_l a1 a2 off n :
  0 <= off -> off + n <= Z.of_nat (length a1) ->
  read_bytes (a1 ++ a2) off n = read_bytes a1 off n.
Proof. intros. apply read_bytes_ext. intros. apply get_app_l. lia. Qed.

Lemma read_bytes_app_r a1 a2 off n :
  0 <= off ->
  read_bytes (a1 ++ a2) (Z.of_nat (length a1) + off) n = read_bytes a2 off n.
Proof.
  intros. apply read_bytes_ext. intros.
  rewrite <- Z.add_assoc. apply get_app_r. lia.
Qed.

(** ** Checksums *)

Lemma sum_list_Z_bound l :
  Forall is_byte l -> 0 <= sum_list_Z l <= 255 * Z.of_nat (length l).
Proof.
  unfold is_byte. induction 1 as [|x l Hx _ IH]; simpl; [lia |].
  simpl in IH. lia.
Qed.

(** The 32-bit accumulation does not wrap as long as the exact sum fits. *)
Lemma foldl_add_exact (f : Z -> Z) (l : list Z) (s : Z) :
  (forall i, is_byte (f i)) ->
  0 <= s -> s + 255 * Z.of_nat (length l) < 4294967296 ->
  foldl (fun s i => u32 (s + f i)) s l = s + sum_list_Z (f <$> l).
Proof.
  intros Hf. revert s. induction l as [|i l IH]; intros s Hs Hb; simpl.
  - lia.
  - pose proof (Hf i) as Hi. unfold is_byte in Hi.
    simpl length in Hb. rewrite Nat2Z.inj_succ in Hb.
    rewrite u32_id by lia. rewrite IH by lia.
    unfold fmap. lia.
Qed.

Lemma add_bytes_exact a off n s :
  Forall is_byte a -> 0 <= s -> 0 <= n -> s + 255 * n < 4294967296 ->
  add_bytes a off n s = s + sum_list_Z (read_bytes a off n).
Proof.
  intros Ha Hs Hn Hb. unfold add_bytes, read_bytes.
  apply (foldl_add_exact (fun i => get a (off + i))).
  - intros i. by apply get_byte.
  - done.
  - rewrite length_seqZ. lia.
Qed.

Lemma add_bytes_ext a a' off off' n s :
  (forall i, 0 <= i < n -> get a (off + i) = get a' (off' + i)) ->
  add_bytes a off n s = add_bytes a' off' n s.
Proof.
  intros H. unfold add_bytes.
  assert (Hl : forall i, i ∈ seqZ 0 n -> 0 <= i < n).
  { intros i Hi. apply elem_of_seqZ in Hi. lia. }
  revert s Hl. induction (seqZ 0 n) as [|k l IH]; intros s Hl; simpl; [done |].
  rewrite H by (apply Hl; left). apply IH. intros i Hi. apply Hl. by right.
Qed.

(** On a header with arrays of the announced sizes the checksum is the exact
    sum: no step of the 32-bit accumulation wraps. *)
Lemma calc_check_sum_exact c b n rp cp :
  0 <= b < 65536 -> 0 <= n < 65536 ->
  Z.of_nat (length rp) = b -> Z.of_nat (length cp) = n ->
  Forall is_byte rp -> Forall is_byte cp ->
  calc_check_sum (mkHdr c b n rp cp) = b + n + sum_list_Z rp + sum_list_Z cp.
Proof.
  intros Hb Hn Hlr Hlc Hr Hc. unfold calc_check_sum. simpl.
  pose proof (sum_list_Z_bound rp Hr) as Br.
  rewrite u32_id by lia.
  rewrite (add_bytes_exact rp) by (try done; lia).
  rewrite <- Hlr at 2. rewrite read_bytes_all.
  rewrite (add_bytes_exact cp) by (try done; lia).
  rewrite <- Hlc at 2. rewrite read_bytes_all. lia.
Qed.

(** ** Derivation of the parities *)

Lemma calculate_parities_fold_shape byte_array b (l : list Z) st :
  let st' := foldl (calculate_parities_step byte_array b) st l in
  length st'.1 = length st.1 /\ length st'.2 = length st.2 /\
  (Forall is_byte st.1 -> Forall is_byte st'.1) /\
  (Forall is_byte st.2 -> Forall is_byte st'.2).
Proof.
  revert st. induction l as [|i l IH]; intros st; simpl; [done |].
  destruct (IH (calculate_parities_step byte_array b st i)) as (H1 & H2 & H3 & H4).
  unfold calculate_parities_step in H1, H2, H3, H4 at 2. simpl in H1, H2, H3, H4.
  rewrite length_xor_at in H1, H2.
  repeat split; [done | done | |]; intros Hb.
  - apply H3. by apply xor_at_byte.
  - apply H4. by apply xor_at_byte.
Qed.

Lemma calculate_parities_shape b n byte_array :
  let rc := calculate_parities b n byte_array in
  length rc.1 = Z.to_nat b /\ length rc.2 = Z.to_nat n /\
  Forall is_byte rc.1 /\ Forall is_byte rc.2.
Proof.
  unfold calculate_parities.
  destruct (calculate_parities_fold_shape byte_array b
              (seqZ 0 (s32 (b * n))) (zeros b, zeros n)) as (H1 & H2 & H3 & H4).
  simpl in *. rewrite length_zeros in H1, H2.
  repeat split; [done | done | |].
  - apply H3, zeros_byte.
  - apply H4, zeros_byte.
Qed.

(** Every constructed header is well formed and carries its own checksum. *)
Lemma ParityHdr_of_fields b n byte_array :
  let h := ParityHdr_of b n byte_array in
  B h = u16 b /\ N h = u16 n /\
  row_parities h = (calculate_parities (u16 b) (u16 n) byte_array).1 /\
  col_parities h = (calculate_parities (u16 b) (u16 n) byte_array).2 /\
  check_sum h = calc_check_sum h.
Proof. done. Qed.

Lemma ParityHdr_of_exact b n byte_array :
  let h := ParityHdr_of b n byte_array in
  check_sum h
  = B h + N h + sum_list_Z (row_parities h) + sum_list_Z (col_parities h).
Proof.
  destruct (calculate_parities_shape (u16 b) (u16 n) byte_array) as (H1 & H2 & H3 & H4).
  pose proof (u16_range b). pose proof (u16_range n).
  unfold ParityHdr_of. simpl.
  apply calc_check_sum_exact; try done; lia.
Qed.

Lemma ParityHdr_of_well_formed b n byte_array :
  well_formed (ParityHdr_of b n byte_array).
Proof.
  destruct (calculate_parities_shape (u16 b) (u16 n) byte_array) as (H1 & H2 & H3 & H4).
  pose proof (u16_range b). pose proof (u16_range n).
  pose proof (ParityHdr_of_exact b n byte_array) as He.
  pose proof (sum_list_Z_bound _ H3). pose proof (sum_list_Z_bound _ H4).
  split; try done; simpl in *; lia.
Qed.

Lemma ParityHdr_of_confirm b n byte_array :
  confirm_check_sum (ParityHdr_of b n byte_array) = true.
Proof. unfold confirm_check_sum. apply Z.eqb_eq. done. Qed.

(** ** Bytes and XOR *)

Lemma is_byte_land x : is_byte x <-> x = Z.land x 255.
Proof.
  change 255 with (Z.ones 8). rewrite Z.land_ones by lia. unfold is_byte.
  split.
  - intros. symmetry. apply Z.mod_small. lia.
  - intros ->. apply Z.mod_pos_bound. lia.
Qed.

Lemma lxor_byte x y : is_byte x -> is_byte y -> is_byte (Z.lxor x y).
Proof.
  rewrite !is_byte_land. intros Hx Hy. rewrite Hx, Hy.
  apply Z.bits_inj'. intros k Hk.
  rewrite Z.land_spec, !Z.lxor_spec, !Z.land_spec.
  by destruct (Z.testbit x k), (Z.testbit y k), (Z.testbit 255 k).
Qed.

Lemma xor_list_byte l : Forall is_byte l -> is_byte (xor_list l).
Proof.
  induction 1 as [|x l Hx _ IH]; simpl.
  - unfold is_byte. lia.
  - by apply lxor_byte.
Qed.

(** A property checked on the 256 byte values holds of every byte. *)
Lemma byte_cases (P : Z -> bool) :
  forallb P (seqZ 0 256) = true -> forall x, is_byte x -> P x = true.
Proof.
  intros H x Hx. rewrite forallb_forall in H. apply H.
  apply list_elem_of_In, elem_of_seqZ. unfold is_byte in Hx. lia.
Qed.

Lemma byte_parity_loop_bit k p x :
  p = 0 \/ p = 1 -> byte_parity_loop k p x = 0 \/ byte_parity_loop k p x = 1.
Proof.
  revert p x. induction k as [|k IH]; intros p x Hp; simpl; [done |].
  apply IH.
  assert (Hb : Z.land x 1 = 0 \/ Z.land x 1 = 1).
  { pose proof (Z.land_ones x 1 ltac:(lia)) as E.
    change (Z.ones 1) with 1 in E. change (2 ^ 1) with 2 in E.
    pose proof (Z.mod_pos_bound x 2). lia. }
  destruct Hp as [-> | ->], Hb as [-> | ->]; vm_compute; auto.
Qed.

Lemma byte_parity_bit x : byte_parity x = 0 \/ byte_parity x = 1.
Proof. apply byte_parity_loop_bit. by left. Qed.

Lemma byte_parity_byte x : is_byte (byte_parity x).
Proof. unfold is_byte. destruct (byte_parity_bit x) as [-> | ->]; lia. Qed.

Lemma byte_parity_bit_parity x : is_byte x -> byte_parity x = bit_parity x.
Proof.
  intros Hx. apply Z.eqb_eq.
  apply (byte_cases (fun x => byte_parity x =? bit_parity x)); [| done].
  vm_compute. reflexivity.
Qed.

(** ** The closed form of the derivation *)

Lemma filter_ext_elem (P Q : Z -> Prop)
    `{!forall x, Decision (P x), !forall x, Decision (Q x)} (l : list Z) :
  (forall x, x ∈ l -> P x <-> Q x) -> filter P l = filter Q l.
Proof.
  induction l as [|a l IH]; intros Hext; [done |].
  assert (Ha : P a <-> Q a) by (apply Hext; left).
  assert (Hl : filter P l = filter Q l).
  { apply IH. intros x Hx. apply Hext. by right. }
  destruct (decide (P a)).
  - rewrite !filter_cons_True by tauto. by rewrite Hl.
  - rewrite !filter_cons_False by tauto. done.
Qed.

(** A loop of [a[idx i] ^= val i] leaves in cell [r] its old contents XORed
    with the values sent to [r]. *)
Lemma foldl_xor_at (idx val : Z -> Z) (l : list Z) (a : list Z) (r : Z) :
  Forall is_byte a -> (forall i, is_byte (val i)) ->
  0 <= r < Z.of_nat (length a) ->
  get (foldl (fun a i => xor_at a (idx i) (val i)) a l) r
  = Z.lxor (get a r) (xor_list (val <$> filter (fun i => idx i = r) l)).
Proof.
  intros Ha Hv. revert a Ha. induction l as [|i l IH]; intros a Ha Hr; simpl.
  - by rewrite Z.lxor_0_r.
  - rewrite IH; [| by apply xor_at_byte | by rewrite length_xor_at].
    rewrite get_xor_at by done.
    destruct (decide (idx i = r)) as [E|E].
    + rewrite filter_cons_True by done. simpl.
      rewrite u8_id by (apply lxor_byte; [by apply get_byte | done]).
      by rewrite Z.lxor_assoc.
    + by rewrite filter_cons_False by done.
Qed.

Lemma calculate_parities_fold_split byte_array b (l : list Z) st :
  foldl (calculate_parities_step byte_array b) st l
  = (foldl (fun a i => xor_at a (Z.rem i b) (get byte_array i)) st.1 l,
     foldl (fun a i => xor_at a (Z.quot i b) (byte_parity (get byte_array i)))
           st.2 l).
Proof.
  revert st. induction l as [|i l IH]; intros [rp cp]; simpl; [done |].
  rewrite IH. done.
Qed.

(** The derivation on a buffer whose length the [int] product represents. *)
Lemma calculate_parities_closed b n byte_array :
  0 < b -> 0 < n -> b * n <= INT_MAX ->
  Z.of_nat (length byte_array) = b * n ->
  Forall is_byte byte_array ->
  let rc := calculate_parities b n byte_array in
  (forall r, 0 <= r < b -> get rc.1 r = row_xor b r byte_array) /\
  (forall c, 0 <= c < n -> get rc.2 c = col_xor b c byte_array).
Proof.
  intros Hb Hn Hm Hlen Hbytes. unfold calculate_parities.
  rewrite s32_id by (unfold INT_MAX in *; lia).
  rewrite calculate_parities_fold_split. simpl. split.
  - intros r Hr.
    rewrite (foldl_xor_at (fun i => Z.rem i b) (get byte_array)).
    + rewrite get_zeros, Z.lxor_0_l. unfold row_xor, positions. rewrite Hlen.
      do 2 f_equal. apply filter_ext_elem. intros i Hi.
      apply elem_of_seqZ in Hi. rewrite Z.rem_mod_nonneg by lia. done.
    + apply zeros_byte.
    + intros i. by apply get_byte.
    + rewrite length_zeros. lia.
  - intros c Hc.
    rewrite (foldl_xor_at (fun i => Z.quot i b)
               (fun i => byte_parity (get byte_array i))).
    + rewrite get_zeros, Z.lxor_0_l. unfold col_xor, positions. rewrite Hlen.
      f_equal.
      rewrite (filter_ext_elem (fun i => Z.quot i b = c) (fun i => i / b = c)).
      * apply list_fmap_ext. intros k i Hi. simpl.
        apply byte_parity_bit_parity. by apply get_byte.
      * intros i Hi. apply elem_of_seqZ in Hi.
        rewrite Z.quot_div_nonneg by lia. done.
    + apply zeros_byte.
    + intros i. apply byte_parity_byte.
    + rewrite length_zeros. lia.
Qed.

(** ** One flipped bit *)

Lemma mask_byte k : 0 <= k < 8 -> is_byte (Z.shiftr 128 k).
Proof. intros Hk. bit_cases k; vm_compute; split; congruence. Qed.

Lemma mask_nonzero k : 0 <= k < 8 -> Z.shiftr 128 k <> 0.
Proof. intros Hk. bit_cases k; vm_compute; congruence. Qed.

Lemma bit_parity_flip x k :
  is_byte x -> 0 <= k < 8 ->
  bit_parity (Z.lxor x (Z.shiftr 128 k)) = Z.lxor (bit_parity x) 1.
Proof.
  intros Hx Hk. apply Z.eqb_eq.
  apply (byte_cases
    (fun x => bit_parity (Z.lxor x (Z.shiftr 128 k)) =? Z.lxor (bit_parity x) 1));
    [| done].
  bit_cases k; vm_compute; reflexivity.
Qed.

Lemma bit_scan_mask k : 0 <= k < 8 -> bit_scan (Z.shiftr 128 k) = (0, k, 1).
Proof. intros Hk. bit_cases k; reflexivity. Qed.

Lemma lxor_cancel x m : Z.lxor (Z.lxor x m) m = x.
Proof. by rewrite Z.lxor_assoc, Z.lxor_nilpotent, Z.lxor_0_r. Qed.

Lemma xor_list_cons x l : xor_list (x :: l) = Z.lxor x (xor_list l).
Proof. done. Qed.

Lemma xor_list_lxor (f g : Z -> Z) (l : list Z) :
  xor_list ((fun i => Z.lxor (f i) (g i)) <$> l)
  = Z.lxor (xor_list (f <$> l)) (xor_list (g <$> l)).
Proof.
  induction l as [|i l IH]; [done |].
  rewrite !fmap_cons, !xor_list_cons.
  rewrite IH. rewrite !Z.lxor_assoc. f_equal.
  rewrite <- !Z.lxor_assoc. f_equal. apply Z.lxor_comm.
Qed.

Lemma xor_list_zero (g : Z -> Z) (l : list Z) :
  (forall i, i ∈ l -> g i = 0) -> xor_list (g <$> l) = 0.
Proof.
  induction l as [|i l IH]; intros H; [done |].
  rewrite fmap_cons, xor_list_cons.
  rewrite H by left. rewrite IH; [done |]. intros j Hj. apply H. by right.
Qed.

(** XOR of a sequence that is zero except at one position. *)
Lemma xor_list_single (p m : Z) (l : list Z) :
  NoDup l ->
  xor_list ((fun i => if decide (i = p) then m else 0) <$> l)
  = if decide (p ∈ l) then m else 0.
Proof.
  induction 1 as [|i l Hi Hnd IH].
  - rewrite decide_False; [done |]. apply not_elem_of_nil.
  - rewrite fmap_cons, xor_list_cons.
    rewrite IH. destruct (decide (i = p)) as [->|Hne].
    + rewrite (decide_True (P := p ∈ p :: l)) by left.
      rewrite (decide_False (P := p ∈ l)) by done.
      apply Z.lxor_0_r.
    + rewrite Z.lxor_0_l. destruct (decide (p ∈ l)) as [Hin|Hin].
      * rewrite decide_True; [done |]. by right.
      * rewrite decide_False; [done |]. rewrite elem_of_cons.
        intros [E | E]; [congruence | done].
Qed.

(** A scanning loop of [find_error_locations] over cells that all agree
    leaves the count and the recorded index alone. *)
Lemma scan_fold_equal (a a' : list Z) (l : list Z) (st : Z * Z) :
  (forall k, k ∈ l -> get a k = get a' k) ->
  foldl (scan_step a a') st l = st.
Proof.
  revert st. induction l as [|k l IH]; intros st H; simpl; [done |].
  unfold scan_step at 2. rewrite (H k) by left. rewrite Z.eqb_refl. simpl.
  apply IH. intros j Hj. apply H. by right.
Qed.

(** With exactly one disagreeing cell the loop counts 1 and records it. *)
Lemma scan_single (a a' : list Z) (n k0 start : Z) :
  0 <= k0 < n ->
  (forall k, 0 <= k < n -> k <> k0 -> get a k = get a' k) ->
  get a k0 <> get a' k0 ->
  scan a a' n start = (1, k0).
Proof.
  intros Hk Hsame Hdiff. unfold scan.
  replace n with (k0 + (n - k0)) by lia.
  rewrite seqZ_app by lia. rewrite Z.add_0_l.
  rewrite (seqZ_cons k0) by lia. rewrite foldl_app. simpl.
  rewrite scan_fold_equal.
  - rewrite scan_fold_equal.
    + unfold scan_step. apply Z.eqb_neq in Hdiff. rewrite Hdiff. done.
    + intros k Hin. apply elem_of_seqZ in Hin. apply Hsame; lia.
  - intros k Hin. apply elem_of_seqZ in Hin. apply Hsame; lia.
Qed.

Lemma hdr_eq_rows_differ (h1 h2 : ParityHdr) (r : Z) :
  0 <= r < B h1 ->
  get (row_parities h1) r <> get (row_parities h2) r ->
  hdr_eq h1 h2 = false.
Proof.
  intros Hr Hd. unfold hdr_eq.
  destruct (negb (check_sum h1 =? check_sum h2) || negb (B h1 =? B h2)
            || negb (N h1 =? N h2)); [done |].
  case_bool_decide as E; [| done]. exfalso. apply Hd.
  assert (E' : read_bytes (row_parities h1) 0 (B h1) !! Z.to_nat r
               = read_bytes (row_parities h2) 0 (B h1) !! Z.to_nat r)
    by (by rewrite E).
  rewrite !lookup_read_bytes in E' by lia.
  rewrite Z.add_0_l, Z2Nat.id in E' by lia. congruence.
Qed.

Lemma lxor_nonzero_neq x y : y <> 0 -> x <> Z.lxor x y.
Proof.
  intros Hy E. apply Hy.
  assert (H : y = Z.lxor x (Z.lxor x y))
    by (by rewrite <- Z.lxor_assoc, Z.lxor_nilpotent, Z.lxor_0_l).
  rewrite <- E, Z.lxor_nilpotent in H. done.
Qed.

Section one_flip.
Variables (b n : Z) (s : list Z) (idx : Z).
Hypothesis Hb : 0 < b.
Hypothesis Hn : 0 < n.
Hypothesis Hlen : Z.of_nat (length s) = b * n.
Hypothesis Hbytes : Forall is_byte s.
Hypothesis Hidx : 0 <= idx < 8 * (b * n).

Let p := idx / 8.
Let k := idx mod 8.
Let m := Z.shiftr 128 k.

Lemma flip_p_range : 0 <= p < b * n.
Proof. unfold p. split; [apply Z.div_pos; lia | apply Z.div_lt_upper_bound; lia]. Qed.

Lemma flip_k_range : 0 <= k < 8.
Proof. unfold k. apply Z.mod_pos_bound. lia. Qed.

Lemma flip_bit_alt : flip_bit s idx = xor_at s p m.
Proof.
  unfold flip_bit, p, m, k.
  rewrite Z.quot_div_nonneg, Z.rem_mod_nonneg by lia. done.
Qed.

Lemma length_flip_bit : length (flip_bit s idx) = length s.
Proof. apply length_xor_at. Qed.

Lemma flip_bit_byte : Forall is_byte (flip_bit s idx).
Proof. by apply xor_at_byte. Qed.

Lemma get_flip_bit i :
  0 <= i < b * n ->
  get (flip_bit s idx) i
  = Z.lxor (get s i) (if decide (i = p) then m else 0).
Proof.
  intros Hi. rewrite flip_bit_alt, get_xor_at by lia.
  pose proof flip_k_range.
  destruct (decide (p = i)) as [->|Hne].
  - rewrite decide_True by done.
    apply u8_id, lxor_byte; [by apply get_byte | by apply mask_byte].
  - rewrite decide_False by done. by rewrite Z.lxor_0_r.
Qed.

(** Flipping the same bit again restores the buffer. *)
Lemma xor_at_flip_bit : xor_at (flip_bit s idx) p m = s.
Proof.
  pose proof flip_p_range as Hp. pose proof flip_k_range as Hk.
  rewrite flip_bit_alt. unfold xor_at.
  destruct (Z.ltb_spec p 0); [lia |].
  apply list_eq. intros i.
  destruct (decide (i = Z.to_nat p)) as [->|Hne].
  - rewrite !list_lookup_alter_eq.
    destruct (lookup_lt_is_Some_2 s (Z.to_nat p)) as [x Hx]; [lia |].
    rewrite Hx. simpl. f_equal.
    assert (Hxb : is_byte x) by (eapply Forall_lookup_1; eauto).
    rewrite (u8_id (Z.lxor x m)) by (apply lxor_byte; [done | by apply mask_byte]).
    rewrite lxor_cancel. by apply u8_id.
  - by rewrite !list_lookup_alter_ne by done.
Qed.

Lemma row_xor_flip r :
  0 <= r < b ->
  row_xor b r (flip_bit s idx)
  = Z.lxor (row_xor b r s) (if decide (p mod b = r) then m else 0).
Proof.
  intros Hr. pose proof flip_p_range as Hp.
  unfold row_xor, positions. rewrite length_flip_bit.
  set (l := filter (fun i => i mod b = r) (seqZ 0 (Z.of_nat (length s)))).
  assert (Hl : forall i, i ∈ l <-> i mod b = r /\ 0 <= i < b * n).
  { intros i. unfold l. rewrite list_elem_of_filter, elem_of_seqZ. lia. }
  assert (E : (if decide (p mod b = r) then m else 0)
              = xor_list ((fun i => if decide (i = p) then m else 0) <$> l)).
  { rewrite xor_list_single by apply NoDup_filter, NoDup_seqZ.
    destruct (decide (p mod b = r)) as [E|E].
    - rewrite decide_True; [done |]. apply Hl. lia.
    - rewrite decide_False; [done |]. rewrite Hl. tauto. }
  rewrite E, <- xor_list_lxor. f_equal. apply list_fmap_ext.
  intros j i Hi. apply list_elem_of_lookup_2, Hl in Hi.
  apply get_flip_bit. lia.
Qed.
Lemma col_xor_flip c :
  col_xor b c (flip_bit s idx)
  = Z.lxor (col_xor b c s) (if decide (p / b = c) then 1 else 0).
Proof.
  pose proof flip_p_range as Hp. pose proof flip_k_range as Hk.
  unfold col_xor, positions. rewrite length_flip_bit.
  set (l := filter (fun i => i / b = c) (seqZ 0 (Z.of_nat (length s)))).
  assert (Hl : forall i, i ∈ l <-> i / b = c /\ 0 <= i < b * n).
  { intros i. unfold l. rewrite list_elem_of_filter, elem_of_seqZ. lia. }
  assert (E : (if decide (p / b = c) then 1 else 0)
              = xor_list ((fun i => if decide (i = p) then 1 else 0) <$> l)).
  { rewrite xor_list_single by apply NoDup_filter, NoDup_seqZ.
    destruct (decide (p / b = c)) as [E|E].
    - rewrite decide_True; [done |]. apply Hl. lia.
    - rewrite decide_False; [done |]. rewrite Hl. tauto. }
  rewrite E, <- xor_list_lxor. f_equal. apply list_fmap_ext.
  intros j i Hi. apply list_elem_of_lookup_2, Hl in Hi. simpl.
  rewrite get_flip_bit by lia.
  destruct (decide (i = p)) as [->|Hne].
  - apply bit_parity_flip; [by apply get_byte | done].
  - by rewrite !Z.lxor_0_r.
Qed.

Hypothesis Hb16 : b < 65536.
Hypothesis Hn16 : n < 65536.
Hypothesis Hint : b * n <= INT_MAX.

Let h := ParityHdr_of b n s.
Let h' := ParityHdr_of b n (flip_bit s idx).
Let r0 := p mod b.
Let c0 := p / b.

Lemma flip_r0_range : 0 <= r0 < b.
Proof. unfold r0. apply Z.mod_pos_bound. lia. Qed.

Lemma flip_c0_range : 0 <= c0 < n.
Proof.
  pose proof flip_p_range. unfold c0. split.
  - apply Z.div_pos; lia.
  - apply Z.div_lt_upper_bound; lia.
Qed.

Lemma flip_p_split : p = c0 * b + r0.
Proof. unfold c0, r0. pose proof (Z.div_mod p b). lia. Qed.

Lemma flip_dims : B h = b /\ N h = n /\ B h' = b /\ N h' = n.
Proof. unfold h, h'. simpl. rewrite !u16_id by lia. done. Qed.

Lemma flip_rows r :
  0 <= r < b ->
  get (row_parities h') r
  = Z.lxor (get (row_parities h) r) (if decide (r0 = r) then m else 0).
Proof.
  intros Hr. unfold h, h'. simpl. rewrite !u16_id by lia.
  destruct (calculate_parities_closed b n s) as [H1 _]; try done.
  destruct (calculate_parities_closed b n (flip_bit s idx)) as [H2 _];
    try done; [by rewrite length_flip_bit | apply flip_bit_byte |].
  rewrite H1, H2 by done. by apply row_xor_flip.
Qed.

Lemma flip_cols c :
  0 <= c < n ->
  get (col_parities h') c
  = Z.lxor (get (col_parities h) c) (if decide (c0 = c) then 1 else 0).
Proof.
  intros Hc. unfold h, h'. simpl. rewrite !u16_id by lia.
  destruct (calculate_parities_closed b n s) as [_ H1]; try done.
  destruct (calculate_parities_closed b n (flip_bit s idx)) as [_ H2];
    try done; [by rewrite length_flip_bit | apply flip_bit_byte |].
  rewrite H1, H2 by done. by apply col_xor_flip.
Qed.

(** The localisation finds the bit row and the column of the flip. *)
Lemma flip_located :
  find_error_locations h h' (-1) (-1) = inr (8 * r0 + k, c0).
Proof.
  pose proof flip_r0_range as Hr. pose proof flip_c0_range as Hc.
  pose proof flip_k_range as Hk.
  destruct flip_dims as (HB & HN & HB' & HN').
  unfold find_error_locations. rewrite HB, HN.
  rewrite (scan_single _ _ n c0).
  2: done.
  2: { intros c Hcr Hne. rewrite flip_cols by done.
       rewrite decide_False by done. by rewrite Z.lxor_0_r. }
  2: { rewrite flip_cols by done. rewrite decide_True by done.
       by apply lxor_nonzero_neq. }
  cbv beta iota. change (1 =? 0) with false. change (1 >? 1) with false.
  cbv beta iota.
  rewrite (scan_single _ _ b r0).
  2: done.
  2: { intros r Hrr Hne. rewrite flip_rows by done.
       rewrite decide_False by done. by rewrite Z.lxor_0_r. }
  2: { rewrite flip_rows by done. rewrite decide_True by done.
       apply lxor_nonzero_neq. by apply mask_nonzero. }
  cbv beta iota. change (1 =? 0) with false. change (1 >? 1) with false.
  cbv beta iota.
  rewrite flip_rows by done. rewrite decide_True by done.
  rewrite <- Z.lxor_assoc, Z.lxor_nilpotent, Z.lxor_0_l.
  rewrite u8_id by (by apply mask_byte).
  unfold m. rewrite bit_scan_mask by done.
  cbv beta iota. change (1 =? 1) with true. cbv beta iota. simpl negb.
  cbv iota. unfold INT_MAX in Hint.
  rewrite (s32_id (8 * r0)) by (unfold INT_MAX; lia).
  rewrite s32_id by (unfold INT_MAX; lia). done.
Qed.

(** Repair with the header of the original and the header of the damaged
    buffer gives the original back. *)
Lemma repair_flip :
  repair_byte_array h h' (flip_bit s idx) = (None, s).
Proof.
  pose proof flip_r0_range as Hr. pose proof flip_c0_range as Hc.
  pose proof flip_k_range as Hk. pose proof flip_p_range as Hp.
  destruct flip_dims as (HB & HN & HB' & HN').
  unfold repair_byte_array.
  rewrite HB, HN, HB', HN', !Z.eqb_refl.
  rewrite (ParityHdr_of_confirm b n s : confirm_check_sum h = true).
  rewrite (hdr_eq_rows_differ h h' r0).
  2: by rewrite HB.
  2: { rewrite flip_rows by done. rewrite decide_True by done.
       apply lxor_nonzero_neq. by apply mask_nonzero. }
  rewrite flip_located. cbv beta iota delta [negb orb].
  unfold INT_MAX in Hint.
  assert (Hq : Z.quot (8 * r0 + k) 8 = r0).
  { rewrite Z.quot_div_nonneg by lia. symmetry.
    apply (Z.div_unique (8 * r0 + k) 8 r0 k); lia. }
  assert (Hm : Z.rem (8 * r0 + k) 8 = k).
  { rewrite Z.rem_mod_nonneg by lia. symmetry.
    apply (Z.mod_unique (8 * r0 + k) 8 r0 k); lia. }
  rewrite Hq, Hm.
  assert (Hcb : 0 <= c0 * b <= b * n - b) by nia.
  rewrite (s32_id (c0 * b)) by (unfold INT_MAX; lia).
  rewrite s32_id by (unfold INT_MAX; lia).
  rewrite <- flip_p_split. f_equal. apply xor_at_flip_bit.
Qed.
End one_flip.

(** ** Buffers that differ in exactly one bit *)

Lemma sum_list_Z_cons x l : sum_list_Z (x :: l) = x + sum_list_Z l.
Proof. done. Qed.

Lemma popcount8_nonneg x : 0 <= popcount8 x.
Proof.
  unfold popcount8. induction (seqZ 0 8) as [|k l IH]; [done |].
  rewrite fmap_cons, sum_list_Z_cons. destruct (Z.testbit x k); simpl; lia.
Qed.

Lemma bit_distance_nonneg s t : 0 <= bit_distance s t.
Proof.
  unfold bit_distance. revert t. induction s as [|x s IH]; intros [|y t]; try done.
  simpl zip_with. rewrite sum_list_Z_cons.
  pose proof (popcount8_nonneg (Z.lxor x y)). specialize (IH t). lia.
Qed.

Lemma popcount8_zero z : is_byte z -> popcount8 z = 0 -> z = 0.
Proof.
  intros Hz H.
  assert (E : implb (popcount8 z =? 0) (z =? 0) = true).
  { apply (byte_cases (fun z => implb (popcount8 z =? 0) (z =? 0))); [| done].
    vm_compute. reflexivity. }
  apply Z.eqb_eq in H. rewrite H in E. by apply Z.eqb_eq.
Qed.

Lemma popcount8_one z :
  is_byte z -> popcount8 z = 1 -> exists k, 0 <= k < 8 /\ z = Z.shiftr 128 k.
Proof.
  intros Hz H.
  assert (E : implb (popcount8 z =? 1)
                (existsb (fun k => z =? Z.shiftr 128 k) (seqZ 0 8)) = true).
  { apply (byte_cases (fun z => implb (popcount8 z =? 1)
                    (existsb (fun k => z =? Z.shiftr 128 k) (seqZ 0 8))));
      [| done].
    vm_compute. reflexivity. }
  apply Z.eqb_eq in H. rewrite H in E. change (implb true ?x) with x in E.
  apply existsb_exists in E as (k & Hk & E).
  apply list_elem_of_In, elem_of_seqZ in Hk. apply Z.eqb_eq in E.
  exists k. split; [lia | done].
Qed.

Lemma popcount8_mask k : 0 <= k < 8 -> popcount8 (Z.shiftr 128 k) = 1.
Proof. intros Hk. bit_cases k; reflexivity. Qed.

Lemma lxor_swap x y z : Z.lxor x y = z -> y = Z.lxor x z.
Proof.
  intros <-. by rewrite <- Z.lxor_assoc, Z.lxor_nilpotent, Z.lxor_0_l.
Qed.

Lemma bit_distance_zero s t :
  Forall is_byte s -> Forall is_byte t -> length s = length t ->
  bit_distance s t = 0 -> s = t.
Proof.
  intros Hs. revert t. induction Hs as [|x s Hx Hs IH]; intros [|y t] Ht Hl Hd;
    try done.
  apply Forall_cons in Ht as [Hy Ht].
  unfold bit_distance in Hd. simpl zip_with in Hd. rewrite sum_list_Z_cons in Hd.
  pose proof (popcount8_nonneg (Z.lxor x y)).
  pose proof (bit_distance_nonneg s t) as Hnn. unfold bit_distance in Hnn.
  assert (Hz : Z.lxor x y = 0).
  { apply popcount8_zero; [by apply lxor_byte | lia]. }
  apply lxor_swap in Hz. rewrite Z.lxor_0_r in Hz. subst y.
  f_equal. apply IH; [done | by inversion Hl | ].
  unfold bit_distance. lia.
Qed.

Lemma xor_at_cons_0 x s v : xor_at (x :: s) 0 v = u8 (Z.lxor x v) :: s.
Proof. done. Qed.

Lemma xor_at_cons_succ x s q v :
  0 <= q -> xor_at (x :: s) (q + 1) v = x :: xor_at s q v.
Proof.
  intros Hq. unfold xor_at.
  destruct (Z.ltb_spec (q + 1) 0); [lia |]. destruct (Z.ltb_spec q 0); [lia |].
  replace (Z.to_nat (q + 1)) with (S (Z.to_nat q)) by lia. done.
Qed.

Lemma flip_bit_cons_low x s k :
  is_byte x -> 0 <= k < 8 ->
  flip_bit (x :: s) k = Z.lxor x (Z.shiftr 128 k) :: s.
Proof.
  intros Hx Hk. unfold flip_bit.
  rewrite Z.quot_small, Z.rem_small by lia. rewrite xor_at_cons_0.
  rewrite u8_id by (apply lxor_byte; [done | by apply mask_byte]). done.
Qed.

Lemma flip_bit_cons_high x s idx :
  0 <= idx -> flip_bit (x :: s) (idx + 8) = x :: flip_bit s idx.
Proof.
  intros Hi. unfold flip_bit.
  rewrite !Z.quot_div_nonneg, !Z.rem_mod_nonneg by lia.
  replace (idx + 8) with (idx + 1 * 8) by lia.
  rewrite Z.div_add, Z.mod_add by lia.
  apply xor_at_cons_succ. apply Z.div_pos; lia.
Qed.

(** Two buffers differ in exactly one bit precisely when one is the other
    with one bit flipped. *)
Lemma differs_in_one_bit_flip s t :
  Forall is_byte s -> Forall is_byte t -> differs_in_one_bit s t ->
  exists idx, 0 <= idx < 8 * Z.of_nat (length s) /\ t = flip_bit s idx.
Proof.
  intros Hs. revert t.
  induction Hs as [|x s Hx Hs IH]; intros [|y t] Ht [Hl Hd]; try done.
  apply Forall_cons in Ht as [Hy Ht].
  unfold bit_distance in Hd. simpl zip_with in Hd. rewrite sum_list_Z_cons in Hd.
  pose proof (popcount8_nonneg (Z.lxor x y)).
  pose proof (bit_distance_nonneg s t) as Hnn. unfold bit_distance in Hnn.
  assert (Hl' : length s = length t) by (by inversion Hl).
  destruct (decide (popcount8 (Z.lxor x y) = 0)) as [E0|E0].
  - assert (Hz : Z.lxor x y = 0) by (apply popcount8_zero; [by apply lxor_byte | done]).
    apply lxor_swap in Hz. rewrite Z.lxor_0_r in Hz. subst y.
    destruct (IH t Ht) as (idx & Hidx & ->).
    { split; [done |]. unfold bit_distance. lia. }
    exists (idx + 8). split.
    + rewrite length_cons, Nat2Z.inj_succ. lia.
    + by rewrite flip_bit_cons_high by lia.
  - assert (Hs0 : s = t).
    { apply bit_distance_zero; try done. unfold bit_distance. lia. }
    subst t.
    destruct (popcount8_one (Z.lxor x y)) as (k & Hk & Hz);
      [by apply lxor_byte | lia |].
    apply lxor_swap in Hz. subst y.
    exists k. split.
    + rewrite length_cons, Nat2Z.inj_succ. lia.
    + by rewrite flip_bit_cons_low.
Qed.

Lemma bit_distance_refl s : bit_distance s s = 0.
Proof.
  unfold bit_distance. induction s as [|x s IH]; [done |].
  simpl zip_with. rewrite sum_list_Z_cons, IH, Z.lxor_nilpotent. done.
Qed.

Lemma flip_bit_differs s idx :
  Forall is_byte s -> 0 <= idx < 8 * Z.of_nat (length s) ->
  differs_in_one_bit s (flip_bit s idx).
Proof.
  intros Hs. revert idx. induction Hs as [|x s Hx Hs IH]; intros idx Hidx.
  { simpl in Hidx. lia. }
  rewrite length_cons, Nat2Z.inj_succ in Hidx.
  destruct (decide (idx < 8)) as [Hlow|Hhigh].
  - rewrite flip_bit_cons_low by (done || lia). split; [done |].
    unfold bit_distance. simpl zip_with. rewrite sum_list_Z_cons.
    pose proof (bit_distance_refl s) as E. unfold bit_distance in E. rewrite E.
    rewrite <- Z.lxor_assoc, Z.lxor_nilpotent, Z.lxor_0_l.
    rewrite popcount8_mask by lia. done.
  - replace idx with (idx - 8 + 8) by lia.
    rewrite flip_bit_cons_high by lia.
    destruct (IH (idx - 8)) as [Hl Hd]; [lia |]. split.
    + simpl. by rewrite Hl.
    + unfold bit_distance in *. simpl zip_with.
      rewrite sum_list_Z_cons, Hd, Z.lxor_nilpotent. done.
Qed.

(** ** The wire format *)

Lemma length_le_bytes k z : length (le_bytes k z) = k.
Proof. revert z. induction k as [|k IH]; intros z; simpl; [done |]. by rewrite IH. Qed.

Lemma le_bytes_byte k z : Forall is_byte (le_bytes k z).
Proof.
  revert z. induction k as [|k IH]; intros z; simpl; [done |].
  constructor; [| done]. unfold is_byte. apply Z.mod_pos_bound. lia.
Qed.

Lemma le_value_le_bytes k z :
  0 <= z < 256 ^ Z.of_nat k -> le_value (le_bytes k z) = z.
Proof.
  revert z. induction k as [|k IH]; intros z Hz.
  - simpl in *. lia.
  - rewrite Nat2Z.inj_succ, Z.pow_succ_r in Hz by lia. simpl.
    rewrite IH.
    + pose proof (Z.div_mod z 256). lia.
    + split; [apply Z.div_pos; lia | apply Z.div_lt_upper_bound; lia].
Qed.

Lemma le_value_inj l1 l2 :
  Forall is_byte l1 -> Forall is_byte l2 -> length l1 = length l2 ->
  le_value l1 = le_value l2 -> l1 = l2.
Proof.
  intros H1. revert l2. induction H1 as [|x l1 Hx _ IH]; intros [|y l2] H2 Hl E;
    try done.
  apply Forall_cons in H2 as [Hy H2]. simpl in E. unfold is_byte in *.
  assert (x = y /\ le_value l1 = le_value l2) as [-> E'] by lia.
  f_equal. apply IH; [done | by inversion Hl | done].
Qed.

Lemma read_bytes_app_skip a rest off n :
  Z.of_nat (length a) <= off ->
  read_bytes (a ++ rest) off n = read_bytes rest (off - Z.of_nat (length a)) n.
Proof.
  intros H. apply read_bytes_ext. intros i Hi.
  replace (off + i) with (Z.of_nat (length a) + (off - Z.of_nat (length a) + i))
    by lia.
  apply get_app_r. lia.
Qed.

Lemma read_bytes_prefix a rest :
  read_bytes (a ++ rest) 0 (Z.of_nat (length a)) = a.
Proof. rewrite read_bytes_app_l by lia. apply read_bytes_all. Qed.

Lemma get_read_bytes a off n i :
  0 <= i < n -> get (read_bytes a off n) i = get a (off + i).
Proof.
  intros Hi. rewrite get_lookup by lia.
  rewrite lookup_read_bytes by lia. simpl. by rewrite Z2Nat.id by lia.
Qed.

Lemma add_bytes_range a off n s :
  0 <= s < 4294967296 -> 0 <= add_bytes a off n s < 4294967296.
Proof.
  unfold add_bytes. revert s. induction (seqZ 0 n) as [|i l IH]; intros s Hs;
    simpl; [done |].
  apply IH, u32_range.
Qed.

Section wire.
Variable h : ParityHdr.

Let ser := serialize h.
Let row_sum := add_bytes (row_parities h) 0 (B h) 0.
Let rows_img := read_bytes (row_parities h) 0 (B h).
Let cols_img := read_bytes (col_parities h) 0 (N h).

Lemma serialize_flat :
  ser = le_bytes 4 (check_sum h) ++ le_bytes 2 (B h) ++ le_bytes 2 (N h)
        ++ le_bytes 4 (check_sum h) ++ le_bytes 2 (B h) ++ le_bytes 2 (N h)
        ++ le_bytes 4 row_sum ++ rows_img ++ cols_img.
Proof. unfold ser, serialize, obj_prefix. by rewrite <- !app_assoc. Qed.

Lemma serialize_first : read_bytes ser 0 8 = obj_prefix h.
Proof. apply (read_bytes_prefix (obj_prefix h)). Qed.

Lemma serialize_second : read_bytes ser 8 8 = obj_prefix h.
Proof.
  unfold ser, serialize.
  rewrite (read_bytes_app_skip (obj_prefix h)) by (simpl; lia).
  apply (read_bytes_prefix (obj_prefix h)).
Qed.

Lemma serialize_check_sum : read_bytes ser 0 4 = le_bytes 4 (check_sum h).
Proof. rewrite serialize_flat. apply (read_bytes_prefix (le_bytes 4 _)). Qed.

Lemma serialize_B : read_bytes ser 4 2 = le_bytes 2 (B h).
Proof.
  rewrite serialize_flat.
  rewrite (read_bytes_app_skip (le_bytes 4 _)) by (simpl; lia).
  apply (read_bytes_prefix (le_bytes 2 _)).
Qed.

Lemma serialize_N : read_bytes ser 6 2 = le_bytes 2 (N h).
Proof.
  rewrite serialize_flat.
  rewrite (read_bytes_app_skip (le_bytes 4 _)) by (simpl; lia).
  rewrite (read_bytes_app_skip (le_bytes 2 _)) by (simpl; lia).
  apply (read_bytes_prefix (le_bytes 2 _)).
Qed.

Lemma serialize_tail off n :
  20 <= off ->
  read_bytes ser off n = read_bytes (rows_img ++ cols_img) (off - 20) n.
Proof.
  intros Hoff. unfold ser, serialize. fold row_sum rows_img cols_img.
  rewrite (read_bytes_app_skip (obj_prefix h)) by (simpl; lia).
  rewrite (read_bytes_app_skip (obj_prefix h)) by (simpl; lia).
  rewrite (read_bytes_app_skip (le_bytes 4 _)) by (simpl; lia).
  f_equal. simpl. lia.
Qed.

Lemma serialize_sum : read_bytes ser 16 4 = le_bytes 4 row_sum.
Proof.
  unfold ser, serialize. fold row_sum rows_img cols_img.
  rewrite (read_bytes_app_skip (obj_prefix h)) by (simpl; lia).
  rewrite (read_bytes_app_skip (obj_prefix h)) by (simpl; lia).
  apply (read_bytes_prefix (le_bytes 4 _)).
Qed.

Lemma length_serialize :
  0 <= B h -> 0 <= N h -> Z.of_nat (length ser) = 20 + B h + N h.
Proof.
  intros. rewrite serialize_flat. rewrite !length_app, !length_le_bytes.
  unfold rows_img, cols_img. rewrite !length_read_bytes. lia.
Qed.

Lemma serialize_byte :
  Forall is_byte (row_parities h) -> Forall is_byte (col_parities h) ->
  Forall is_byte ser.
Proof.
  intros. rewrite serialize_flat.
  repeat (apply Forall_app; split); try apply le_bytes_byte;
    by apply read_bytes_byte.
Qed.

Hypothesis Hwf : well_formed h.

Lemma serialize_rows : read_bytes ser 20 (B h) = row_parities h.
Proof.
  destruct Hwf. rewrite serialize_tail by lia.
  assert (ER : rows_img = row_parities h).
  { unfold rows_img. rewrite <- wf_rows0. apply read_bytes_all. }
  rewrite ER. replace (20 - 20) with 0 by lia.
  rewrite <- wf_rows0. apply read_bytes_prefix.
Qed.

Lemma serialize_cols : read_bytes ser (20 + B h) (N h) = col_parities h.
Proof.
  destruct Hwf. rewrite serialize_tail by lia.
  assert (ER : rows_img = row_parities h).
  { unfold rows_img. rewrite <- wf_rows0. apply read_bytes_all. }
  assert (EC : cols_img = col_parities h).
  { unfold cols_img. rewrite <- wf_cols0. apply read_bytes_all. }
  rewrite ER, EC. rewrite read_bytes_app_skip by lia.
  replace (20 + B h - 20 - Z.of_nat (length (row_parities h))) with 0 by lia.
  rewrite <- wf_cols0. apply read_bytes_all.
Qed.

Lemma serialize_row_sum : add_bytes ser 20 (B h) 0 = row_sum.
Proof.
  unfold row_sum. apply add_bytes_ext. intros i Hi.
  rewrite <- (get_read_bytes ser 20 (B h)) by done.
  by rewrite serialize_rows.
Qed.

Lemma S_range : 0 <= row_sum < 4294967296.
Proof. apply add_bytes_range. lia. Qed.

(** The fields decoded from the duplicated prefix. *)
Lemma decode_check_sum : le_value (read_bytes ser 0 4) = check_sum h.
Proof. destruct Hwf. rewrite serialize_check_sum. by apply (le_value_le_bytes 4). Qed.

Lemma decode_B : le_value (read_bytes ser 4 2) = B h.
Proof. destruct Hwf. rewrite serialize_B. by apply (le_value_le_bytes 2). Qed.

Lemma decode_N : le_value (read_bytes ser 6 2) = N h.
Proof. destruct Hwf. rewrite serialize_N. by apply (le_value_le_bytes 2). Qed.

Lemma decode_sum : le_value (read_bytes ser 16 4) = row_sum.
Proof.
  rewrite serialize_sum. apply (le_value_le_bytes 4). apply S_range.
Qed.

(** Loading the serialization of a well-formed header with a correct
    checksum succeeds and rebuilds that header, whatever the target held. *)
Lemma load_serialize h0 :
  confirm_check_sum h = true ->
  load_from_serialized h0 ser = (true, h).
Proof.
  intros Hc. pose proof Hwf as [? ? ? ? ? ? ?].
  unfold load_from_serialized.
  rewrite serialize_first, serialize_second.
  rewrite bool_decide_eq_true_2 by done. cbv beta iota delta [negb].
  cbv beta iota zeta. cbn [check_sum B N row_parities col_parities].
  rewrite decode_check_sum, decode_B, decode_N, decode_sum.
  rewrite serialize_row_sum, serialize_rows, serialize_cols, Z.eqb_refl.
  assert (Hsum : check_sum h = B h + N h + sum_list_Z (row_parities h)
                               + sum_list_Z (col_parities h)).
  { unfold confirm_check_sum in Hc. apply Z.eqb_eq in Hc. rewrite Hc.
    destruct h. by apply calc_check_sum_exact. }
  pose proof (sum_list_Z_bound _ wf_row_bytes0).
  pose proof (sum_list_Z_bound _ wf_col_bytes0).
  rewrite u32_id by lia.
  destruct (Z.gtb_spec (B h + N h) (check_sum h)); [lia |].
  cbv beta iota delta [negb].
  destruct h as [cs b n rp cp]. simpl in *. by rewrite Hc.
Qed.
End wire.

Lemma hdr_eq_refl h : hdr_eq h h = true.
Proof.
  unfold hdr_eq. rewrite !Z.eqb_refl. simpl.
  by rewrite !bool_decide_eq_true_2 by done.
Qed.

(** ** Buffers longer than [INT_MAX] *)

(** When the [int] product [B * N] is not positive the loop of
    [calculate_parities] does not run: both arrays stay zero, whatever the
    buffer holds. *)
Lemma calculate_parities_overflow b n byte_array :
  s32 (b * n) <= 0 -> calculate_parities b n byte_array = (zeros b, zeros n).
Proof. intros H. unfold calculate_parities. by rewrite seqZ_nil. Qed.

Lemma ParityHdr_of_overflow b n s t :
  s32 (u16 b * u16 n) <= 0 -> ParityHdr_of b n s = ParityHdr_of b n t.
Proof.
  intros H. unfold ParityHdr_of. by rewrite !calculate_parities_overflow.
Qed.

(** Whatever bound [L] the loop runs to, it reads only the bytes below [L]:
    two buffers that agree there get the same parities.  An [int] bound is at
    most [INT_MAX], so a byte at a position beyond [INT_MAX] is never seen. *)
Lemma derivation_loop_blind byte_array byte_array' b n L :
  (forall i, 0 <= i < L -> get byte_array i = get byte_array' i) ->
  foldl (calculate_parities_step byte_array b) (zeros b, zeros n) (seqZ 0 L)
  = foldl (calculate_parities_step byte_array' b) (zeros b, zeros n) (seqZ 0 L).
Proof.
  intros H.
  assert (Hl : forall i, i ∈ seqZ 0 L -> get byte_array i = get byte_array' i).
  { intros i Hi. apply elem_of_seqZ in Hi. apply H. lia. }
  generalize (zeros b, zeros n). revert Hl.
  induction (seqZ 0 L) as [|i l IH]; intros Hl st; simpl; [done |].
  rewrite IH by (intros j Hj; apply Hl; by right).
  unfold calculate_parities_step at 2 4. by rewrite (Hl i) by left.
Qed.

Lemma row_xor_zeros b r len : row_xor b r (zeros len) = 0.
Proof. unfold row_xor. apply xor_list_zero. intros i _. apply get_zeros. Qed.

Lemma flip_bit_zeros_neq len :
  0 < len -> flip_bit (zeros len) 0 <> zeros len.
Proof.
  intros Hlen E.
  assert (H : get (flip_bit (zeros len) 0) 0 = get (zeros len) 0) by (by rewrite E).
  rewrite (get_flip_bit len 1) in H; try lia.
  - rewrite get_zeros in H. vm_compute in H. congruence.
  - rewrite length_zeros. lia.
  - apply zeros_byte.
Qed.

(** ** Header equality and the scanning loops *)

Lemma hdr_eq_true h1 h2 :
  hdr_eq h1 h2 = true <->
  check_sum h1 = check_sum h2 /\ B h1 = B h2 /\ N h1 = N h2 /\
  read_bytes (row_parities h1) 0 (B h1) = read_bytes (row_parities h2) 0 (B h1) /\
  read_bytes (col_parities h1) 0 (N h1) = read_bytes (col_parities h2) 0 (N h1).
Proof.
  unfold hdr_eq.
  destruct (Z.eqb_spec (check_sum h1) (check_sum h2)); simpl; [| split; [done | tauto]].
  destruct (Z.eqb_spec (B h1) (B h2)); simpl; [| split; [done | tauto]].
  destruct (Z.eqb_spec (N h1) (N h2)); simpl; [| split; [done | tauto]].
  case_bool_decide; simpl; [| split; [done | tauto]].
  case_bool_decide; simpl; [| split; [done | tauto]].
  tauto.
Qed.

Lemma read_bytes_eq_get a a' n i :
  read_bytes a 0 n = read_bytes a' 0 n -> 0 <= i < n -> get a (0 + i) = get a' (0 + i).
Proof.
  intros E Hi.
  rewrite <- (get_read_bytes a 0 n), <- (get_read_bytes a' 0 n) by done.
  by rewrite E.
Qed.

(** Equal headers agree on whether their checksum is right. *)
Lemma hdr_eq_confirm h1 h2 :
  hdr_eq h1 h2 = true -> confirm_check_sum h1 = confirm_check_sum h2.
Proof.
  intros (Hc & HB & HN & Hr & Hcl)%hdr_eq_true.
  unfold confirm_check_sum, calc_check_sum. rewrite <- Hc, <- HB, <- HN.
  f_equal.
  rewrite (add_bytes_ext (row_parities h1) (row_parities h2) 0 0 (B h1))
    by (intros; by apply (read_bytes_eq_get _ _ (B h1))).
  apply add_bytes_ext. intros. by apply (read_bytes_eq_get _ _ (N h1)).
Qed.

Lemma scan_fold_count (a b : list Z) (l : list Z) (st : Z * Z) :
  0 <= st.1 -> st.1 + Z.of_nat (length l) <= INT_MAX ->
  foldl (scan_step a b) st l
  = (st.1 + Z.of_nat (length (filter (fun k => get a k <> get b k) l)),
     default st.2 (last (filter (fun k => get a k <> get b k) l))).
Proof.
  revert st. induction l as [|k l IH]; intros [c j] Hc Hb; simpl in *.
  - f_equal. lia.
  - unfold scan_step at 2. simpl.
    destruct (Z.eqb_spec (get a k) (get b k)) as [E|E]; simpl.
    + rewrite filter_cons_False by (intros H; by apply H).
      apply IH; simpl; lia.
    + rewrite filter_cons_True by done.
      rewrite IH; simpl; rewrite ?s32_id by (unfold INT_MAX in *; lia);
        try lia.
      f_equal; [lia |]. rewrite last_cons.
      by destruct (last (filter (fun k => get a k <> get b k) l)).
Qed.

(** A scanning loop returns the number of disagreeing cells and the last of
    them (the index passed in when there is none). *)
Lemma scan_count (a b : list Z) (n start : Z) :
  n <= INT_MAX ->
  scan a b n start
  = (Z.of_nat (length (mismatches a b n)),
     default start (last (mismatches a b n))).
Proof.
  intros Hn. unfold scan, mismatches. rewrite scan_fold_count; simpl.
  - done.
  - lia.
  - rewrite length_seqZ. unfold INT_MAX in *. lia.
Qed.

(** The bit loop counts the bits set in [flips]. *)
Lemma bit_scan_count z : is_byte z -> (bit_scan z).2 = popcount8 z.
Proof.
  intros Hz. apply Z.eqb_eq.
  apply (byte_cases (fun z => (bit_scan z).2 =? popcount8 z)); [| done].
  vm_compute. reflexivity.
Qed.

Lemma length_one (l : list Z) : length l = 1%nat -> exists i, l = [i].
Proof. destruct l as [|i [|j l]]; try done. by exists i. Qed.

(** The outcome of [find_error_locations], by the disagreeing columns and
    rows of the two headers. *)
Lemma find_error_locations_cases rcvd_hdr t_hdr i0 j0 :
  B rcvd_hdr < 65536 -> N rcvd_hdr < 65536 ->
  let cols := mismatches (col_parities rcvd_hdr) (col_parities t_hdr) (N rcvd_hdr) in
  let rows := mismatches (row_parities rcvd_hdr) (row_parities t_hdr) (B rcvd_hdr) in
  let r := find_error_locations rcvd_hdr t_hdr i0 j0 in
  (r = inl NoColumn /\ cols = []) \/
  (r = inl ManyColumns /\ (1 < length cols)%nat) \/
  (r = inl NoRow /\ length cols = 1%nat /\ rows = []) \/
  (r = inl ManyRows /\ length cols = 1%nat /\ (1 < length rows)%nat) \/
  (exists i j, cols = [j] /\ rows = [i] /\
     let flips := u8 (Z.lxor (get (row_parities rcvd_hdr) i)
                             (get (row_parities t_hdr) i)) in
     (r = inl ManyBits /\ popcount8 flips <> 1 \/
      popcount8 flips = 1 /\
      r = inr (s32 (s32 (8 * i) + (bit_scan flips).1.2), j))).
Proof.
  intros HB HN cols rows r. unfold r, find_error_locations.
  rewrite !scan_count by (unfold INT_MAX; lia). fold cols rows.
  destruct (Z.eqb_spec (Z.of_nat (length cols)) 0) as [E|E].
  { left. split; [done |]. apply length_zero_iff_nil. lia. }
  destruct (Z.gtb_spec (Z.of_nat (length cols)) 1) as [E1|E1].
  { right. left. split; [done | lia]. }
  destruct (length_one cols) as [j Hj]; [lia |].
  destruct (Z.eqb_spec (Z.of_nat (length rows)) 0) as [F|F].
  { do 2 right. left. split; [done |]. split; [lia |].
    apply length_zero_iff_nil. lia. }
  destruct (Z.gtb_spec (Z.of_nat (length rows)) 1) as [F1|F1].
  { do 3 right. left. split; [done |]. split; lia. }
  destruct (length_one rows) as [i Hi]; [lia |].
  do 4 right. exists i, j. rewrite Hi, Hj. split; [done |]. split; [done |].
  simpl.
  pose proof (bit_scan_count _ (u8_byte (Z.lxor (get (row_parities rcvd_hdr) i)
                                          (get (row_parities t_hdr) i)))) as Hcnt.
  destruct (bit_scan (u8 (Z.lxor (get (row_parities rcvd_hdr) i)
                            (get (row_parities t_hdr) i)))) as [[fl fb] cnt].
  simpl in *. rewrite <- Hcnt.
  destruct (Z.eqb_spec cnt 1) as [G|G]; simpl; [right | left]; done.
Qed.

(** ** The steps of deserialization *)

(** [load_from_serialized] by the first check that fails. *)
Lemma load_from_serialized_cases (h : ParityHdr) (ser_PH : list Z) :
  load_from_serialized h ser_PH
  = if negb (prefix_ok ser_PH) then (false, h)
    else if negb (dims_ok ser_PH) then (false, adopted h ser_PH)
    else if negb (row_sum_ok ser_PH) then (false, adopted h ser_PH)
    else (confirm_check_sum (loaded ser_PH), loaded ser_PH).
Proof.
  unfold load_from_serialized, prefix_ok, dims_ok, row_sum_ok, adopted, loaded.
  simpl. rewrite negb_involutive. done.
Qed.

Lemma is_bit_xor x v : is_bit x -> is_bit v -> is_bit (u8 (Z.lxor x v)).
Proof. intros [-> | ->] [-> | ->]; vm_compute; auto. Qed.

Lemma foldl_xor_at_bits (idx val : Z -> Z) (l : list Z) (a : list Z) :
  Forall is_bit a -> (forall i, is_bit (val i)) ->
  Forall is_bit (foldl (fun a i => xor_at a (idx i) (val i)) a l).
Proof.
  intros Ha Hv. revert a Ha. induction l as [|i l IH]; intros a Ha; simpl; [done |].
  apply IH. unfold xor_at. destruct (idx i <? 0); [done |].
  apply Forall_alter; [done |]. intros x _ Hx. by apply is_bit_xor.
Qed.

(** Construction leaves only 0 and 1 in [col_parities]. *)
Lemma ParityHdr_of_col_bits b n byte_array :
  Forall is_bit (col_parities (ParityHdr_of b n byte_array)).
Proof.
  unfold ParityHdr_of, calculate_parities. simpl.
  rewrite calculate_parities_fold_split. simpl.
  apply foldl_xor_at_bits.
  - apply Forall_replicate. by left.
  - intros i. apply byte_parity_bit.
Qed.

(** ** A flipped bit in a serialized header *)

Lemma get_outside a i : i < 0 \/ Z.of_nat (length a) <= i -> get a i = 0.
Proof.
  intros H. unfold get. destruct (Z.ltb_spec i 0); [done |].
  rewrite lookup_ge_None_2 by lia. done.
Qed.

Lemma get_flip_bit_any s idx i :
  Forall is_byte s -> 0 <= idx < 8 * Z.of_nat (length s) ->
  get (flip_bit s idx) i
  = Z.lxor (get s i) (if decide (i = idx / 8) then Z.shiftr 128 (idx mod 8) else 0).
Proof.
  intros Hs Hidx.
  assert (Hp : 0 <= idx / 8 < Z.of_nat (length s)).
  { split; [apply Z.div_pos; lia | apply Z.div_lt_upper_bound; lia]. }
  destruct (decide (0 <= i < Z.of_nat (length s))) as [Hi|Hi].
  - apply (get_flip_bit (Z.of_nat (length s)) 1); try done; lia.
  - rewrite !get_outside by (rewrite ?length_flip_bit; lia).
    rewrite decide_False by lia. done.
Qed.

Lemma read_bytes_get_eq a a' off off' n i :
  read_bytes a off n = read_bytes a' off' n -> 0 <= i < n ->
  get a (off + i) = get a' (off' + i).
Proof.
  intros E Hi.
  rewrite <- (get_read_bytes a off n), <- (get_read_bytes a' off' n) by done.
  by rewrite E.
Qed.

Section corrupted.
Variables (h h0 : ParityHdr) (idx : Z).
Hypothesis Hwf : well_formed h.
Hypothesis Hidx : 0 <= idx < 8 * 20.

Let ser := serialize h.
Let ser' := flip_bit ser idx.
Let p := idx / 8.
Let m := Z.shiftr 128 (idx mod 8).

Lemma corrupted_p_range : 0 <= p < 20.
Proof. unfold p. split; [apply Z.div_pos; lia | apply Z.div_lt_upper_bound; lia]. Qed.

Lemma corrupted_m : is_byte m /\ m <> 0.
Proof.
  assert (0 <= idx mod 8 < 8) by (apply Z.mod_pos_bound; lia).
  split; [by apply mask_byte | by apply mask_nonzero].
Qed.

Lemma corrupted_ser_byte : Forall is_byte ser.
Proof. destruct Hwf. by apply serialize_byte. Qed.

Lemma corrupted_ser_length : Z.of_nat (length ser) = 20 + B h + N h.
Proof. destruct Hwf. apply length_serialize; lia. Qed.

Lemma corrupted_get i :
  get ser' i = Z.lxor (get ser i) (if decide (i = p) then m else 0).
Proof.
  pose proof corrupted_ser_length. destruct Hwf.
  apply get_flip_bit_any; [apply corrupted_ser_byte | lia].
Qed.

(** Reads that do not cover the damaged byte see the original bytes. *)
Lemma corrupted_read_other off n :
  p < off \/ off + n <= p -> read_bytes ser' off n = read_bytes ser off n.
Proof.
  intros H. apply read_bytes_ext. intros i Hi. rewrite corrupted_get.
  rewrite decide_False by lia. apply Z.lxor_0_r.
Qed.

Lemma corrupted_sum_other off n s :
  p < off \/ off + n <= p -> add_bytes ser' off n s = add_bytes ser off n s.
Proof.
  intros H. apply add_bytes_ext. intros i Hi. rewrite corrupted_get.
  rewrite decide_False by lia. apply Z.lxor_0_r.
Qed.

(** A read that covers the damaged byte differs from the original. *)
Lemma corrupted_read_covering a off off' n :
  off <= p < off + n ->
  get a (off' + (p - off)) = get ser p ->
  read_bytes ser' off n <> read_bytes a off' n.
Proof.
  intros Hp Ha E. destruct corrupted_m as [_ Hm].
  apply (read_bytes_get_eq _ _ _ _ _ (p - off)) in E; [| lia].
  replace (off + (p - off)) with p in E by lia.
  rewrite corrupted_get, decide_True, Ha in E by done.
  symmetry in E. by apply lxor_nonzero_neq in E.
Qed.

(** A flip inside the two prefix copies is caught by their comparison. *)
Lemma corrupted_prefix : p < 16 -> prefix_ok ser' = false.
Proof.
  intros Hp. pose proof corrupted_p_range as Hr.
  assert (Hdup : forall i, 0 <= i < 8 -> get ser (0 + i) = get ser (8 + i)).
  { intros i Hi. apply (read_bytes_get_eq _ _ _ _ 8); [| done].
    unfold ser. by rewrite serialize_first, serialize_second. }
  unfold prefix_ok. apply bool_decide_eq_false_2.
  destruct (decide (p < 8)) as [Hlow|Hhigh].
  - rewrite (corrupted_read_other 8 8) by lia.
    apply corrupted_read_covering; [lia |].
    replace (8 + (p - 0)) with (8 + p) by lia. rewrite <- Hdup by lia.
    f_equal; lia.
  - rewrite (corrupted_read_other 0 8) by lia.
    intros E. symmetry in E. revert E.
    apply corrupted_read_covering; [lia |].
    rewrite Hdup by lia.
    f_equal; lia.
Qed.

(** A flip inside the row-parity-sum field leaves the prefix intact and is
    caught, at the latest, by the comparison of the sums. *)
Lemma corrupted_sum :
  16 <= p ->
  prefix_ok ser' = true /\ adopted h0 ser' = mkHdr (check_sum h) (B h) (N h)
                                               (row_parities h0) (col_parities h0) /\
  row_sum_ok ser' = false.
Proof.
  intros Hp. pose proof corrupted_p_range as Hr.
  split; [| split].
  - unfold prefix_ok. rewrite !corrupted_read_other by lia.
    apply bool_decide_eq_true_2. unfold ser.
    by rewrite serialize_first, serialize_second.
  - unfold adopted. rewrite !corrupted_read_other by lia. unfold ser.
    by rewrite decode_check_sum, decode_B, decode_N.
  - unfold row_sum_ok. rewrite (corrupted_read_other 4 2) by lia.
    rewrite corrupted_sum_other by lia. unfold ser at 1 2.
    rewrite decode_B, serialize_row_sum by done.
    apply Z.eqb_neq. intros E.
    rewrite <- (decode_sum h) in E. fold ser in E.
    apply le_value_inj in E.
    + symmetry in E. revert E. apply corrupted_read_covering; [lia |].
      f_equal; lia.
    + apply read_bytes_byte, corrupted_ser_byte.
    + apply read_bytes_byte. unfold ser'. apply xor_at_byte, corrupted_ser_byte.
    + by rewrite !length_read_bytes.
Qed.
End corrupted.

(** ** The properties of the specification *)

(** X20: single-bit repair where the buffer length fits an [int]
    ([rows * cols <= INT_MAX]): the header of a trusted buffer passes
    [confirm_check_sum], and [repair_byte_array] called with it and the header
    of a buffer that differs from the trusted one in exactly one bit returns
    normally and leaves the buffer equal to the trusted one; this holds for
    every bit position [idx] of the buffer. *)
Theorem single_bit_repair (b n : Z) (s : list Z) :
  0 < b < 65536 -> 0 < n < 65536 -> b * n <= INT_MAX ->
  Z.of_nat (length s) = b * n -> Forall is_byte s ->
  confirm_check_sum (ParityHdr_of b n s) = true /\
  (forall t, Forall is_byte t -> differs_in_one_bit s t ->
     repair_byte_array (ParityHdr_of b n s) (ParityHdr_of b n t) t = (None, s)) /\
  (forall idx, 0 <= idx < 8 * (b * n) ->
     differs_in_one_bit s (flip_bit s idx) /\
     repair_byte_array (ParityHdr_of b n s) (ParityHdr_of b n (flip_bit s idx))
       (flip_bit s idx) = (None, s)).
Proof.
  intros Hb Hn Hint Hlen Hs.
  assert (Hflip : forall idx, 0 <= idx < 8 * (b * n) ->
     repair_byte_array (ParityHdr_of b n s) (ParityHdr_of b n (flip_bit s idx))
       (flip_bit s idx) = (None, s)).
  { intros idx Hidx. apply repair_flip; try done; lia. }
  split; [apply ParityHdr_of_confirm |]. split.
  - intros t Ht Hd.
    destruct (differs_in_one_bit_flip s t Hs Ht Hd) as (idx & Hidx & ->).
    apply Hflip. lia.
  - intros idx Hidx. split; [| by apply Hflip].
    apply flip_bit_differs; [done | lia].
Qed.

Lemma single_bit_repair_witness :
  let s := [0; 0; 0; 0; 0; 0; 0; 0; 0] in
  (0 < 3 < 65536 /\ 3 * 3 <= INT_MAX /\ Z.of_nat (length s) = 3 * 3
   /\ Forall is_byte s) /\
  confirm_check_sum (ParityHdr_of 3 3 s) = true /\
  (forall t, Forall is_byte t -> differs_in_one_bit s t ->
     repair_byte_array (ParityHdr_of 3 3 s) (ParityHdr_of 3 3 t) t = (None, s)) /\
  (forall idx, 0 <= idx < 8 * (3 * 3) ->
     differs_in_one_bit s (flip_bit s idx) /\
     repair_byte_array (ParityHdr_of 3 3 s) (ParityHdr_of 3 3 (flip_bit s idx))
       (flip_bit s idx) = (None, s)).
Proof.
  assert (Hs : Forall is_byte [0; 0; 0; 0; 0; 0; 0; 0; 0]).
  { repeat constructor; unfold is_byte; lia. }
  split.
  - unfold INT_MAX. repeat split; try lia; try reflexivity. exact Hs.
  - apply (single_bit_repair 3 3 [0; 0; 0; 0; 0; 0; 0; 0; 0]);
      unfold INT_MAX; try lia; try reflexivity. exact Hs.
Defined.

(** C1: the single-bit repair is lost on a buffer longer than [INT_MAX].
    With 65535 rows and 32769 columns, both valid [unsigned short] arguments,
    the product [B * N] = 2147516415 does not fit the [int L] of
    [calculate_parities].  C++ leaves that overflow undefined; with the
    two's-complement result, which is negative, the derivation loop does not
    run, the headers of the trusted buffer and of the buffer with one flipped
    bit are equal, and [repair_byte_array] returns normally with the damaged
    bit still flipped. *)
Lemma single_bit_repair_overflow :
  let b := 65535 in
  let n := 32769 in
  let s := zeros (b * n) in
  let t := flip_bit s 0 in
  (0 < b < 65536 /\ 0 < n < 65536 /\ Z.of_nat (length s) = b * n
   /\ Forall is_byte s /\ differs_in_one_bit s t) /\
  repair_byte_array (ParityHdr_of b n s) (ParityHdr_of b n t) t = (None, t) /\
  t <> s.
Proof.
  intros b n s t.
  assert (Hlen : Z.of_nat (length s) = b * n).
  { unfold s. rewrite length_zeros. unfold b, n. lia. }
  assert (Hs : Forall is_byte s) by apply zeros_byte.
  split; [| split].
  - split; [unfold b; lia |]. split; [unfold n; lia |].
    split; [exact Hlen |]. split; [exact Hs |].
    apply flip_bit_differs; [exact Hs |]. rewrite Hlen. unfold b, n. lia.
  - assert (Hov : s32 (u16 b * u16 n) <= 0) by (vm_compute; congruence).
    rewrite (ParityHdr_of_overflow b n t s Hov).
    unfold repair_byte_array.
    rewrite ParityHdr_of_confirm, hdr_eq_refl. reflexivity.
  - apply flip_bit_zeros_neq. unfold b, n. lia.
Qed.

(** C2: the serialization of the header of any buffer loads successfully
    into any header; the loaded header is the original one, equal to it per
    [operator==], and passes [confirm_check_sum]. *)
Theorem serialize_round_trip (b n : Z) (byte_array : list Z) (h0 : ParityHdr) :
  let h := ParityHdr_of b n byte_array in
  let r := load_from_serialized h0 (serialize h) in
  r.1 = true /\ r.2 = h /\ hdr_eq r.2 h = true /\ confirm_check_sum r.2 = true.
Proof.
  intros h r. unfold r.
  rewrite (load_serialize h (ParityHdr_of_well_formed b n byte_array) h0
             (ParityHdr_of_confirm b n byte_array)).
  simpl. repeat split.
  - apply hdr_eq_refl.
  - apply ParityHdr_of_confirm.
Qed.

(** X21: the derivation where the buffer length fits an [int]: for positive
    dimensions with [rows * cols <= INT_MAX] and a buffer of [rows * cols]
    bytes, [row_parities[r]] is the XOR of
    the bytes at the positions [i] with [i mod rows = r], and
    [col_parities[c]] is the XOR of the bit parities of the bytes at the
    positions [i] with [i / rows = c]; both arrays have the announced sizes. *)
Theorem derivation_closed_form (b n : Z) (byte_array : list Z) :
  0 < b < 65536 -> 0 < n < 65536 -> b * n <= INT_MAX ->
  Z.of_nat (length byte_array) = b * n -> Forall is_byte byte_array ->
  let h := ParityHdr_of b n byte_array in
  (B h = b /\ N h = n /\
   Z.of_nat (length (row_parities h)) = b /\
   Z.of_nat (length (col_parities h)) = n) /\
  (forall r, 0 <= r < b -> get (row_parities h) r = row_xor b r byte_array) /\
  (forall c, 0 <= c < n -> get (col_parities h) c = col_xor b c byte_array).
Proof.
  intros Hb Hn Hint Hlen Hbytes h.
  destruct (ParityHdr_of_well_formed b n byte_array) as [_ _ _ Hr Hc _ _].
  fold h in Hr, Hc.
  assert (HB : B h = b) by (unfold h; simpl; apply u16_id; lia).
  assert (HN : N h = n) by (unfold h; simpl; apply u16_id; lia).
  split; [rewrite Hr, Hc; done |].
  unfold h, ParityHdr_of. simpl. rewrite !u16_id by lia.
  apply calculate_parities_closed; try done; lia.
Qed.

Lemma derivation_closed_form_witness :
  let byte_array := [1; 2; 3; 4; 5; 6] in
  let h := ParityHdr_of 2 3 byte_array in
  (0 < 2 < 65536 /\ 0 < 3 < 65536 /\ 2 * 3 <= INT_MAX
   /\ Z.of_nat (length byte_array) = 2 * 3 /\ Forall is_byte byte_array) /\
  (B h = 2 /\ N h = 3 /\
   Z.of_nat (length (row_parities h)) = 2 /\
   Z.of_nat (length (col_parities h)) = 3) /\
  (forall r, 0 <= r < 2 -> get (row_parities h) r = row_xor 2 r byte_array) /\
  (forall c, 0 <= c < 3 -> get (col_parities h) c = col_xor 2 c byte_array).
Proof.
  assert (Hs : Forall is_byte [1; 2; 3; 4; 5; 6]).
  { repeat constructor; unfold is_byte; lia. }
  split.
  - unfold INT_MAX. repeat split; try lia; try reflexivity. exact Hs.
  - apply (derivation_closed_form 2 3 [1; 2; 3; 4; 5; 6]);
      unfold INT_MAX; try lia; try reflexivity. exact Hs.
Defined.

(** C3: the derivation is lost on a buffer longer than [INT_MAX].  With
    65535 rows and 32769 columns, both valid [unsigned short] arguments, the
    product [B * N] = 2147516415 does not fit [int L].  C++ leaves that
    overflow undefined; with the two's-complement result, which is negative,
    the loop does not run, so [row_parities[0]] is 0 although the bytes at the
    positions divisible by 65535 XOR to 128. *)
Lemma derivation_overflow :
  let b := 65535 in
  let n := 32769 in
  let byte_array := flip_bit (zeros (b * n)) 0 in
  let h := ParityHdr_of b n byte_array in
  (0 < b < 65536 /\ 0 < n < 65536 /\ Z.of_nat (length byte_array) = b * n
   /\ Forall is_byte byte_array) /\
  get (row_parities h) 0 = 0 /\ row_xor b 0 byte_array = 128 /\
  get (row_parities h) 0 <> row_xor b 0 byte_array.
Proof.
  intros b n byte_array h.
  assert (Hlen : Z.of_nat (length (zeros (b * n))) = b * n).
  { rewrite length_zeros. unfold b, n. lia. }
  assert (Hov : s32 (u16 b * u16 n) <= 0) by (vm_compute; congruence).
  assert (H0 : get (row_parities h) 0 = 0).
  { unfold h, ParityHdr_of. rewrite calculate_parities_overflow by exact Hov.
    apply get_zeros. }
  assert (H1 : row_xor b 0 byte_array = 128).
  { unfold byte_array.
    rewrite (row_xor_flip b n (zeros (b * n)) 0); try exact Hlen;
      try apply zeros_byte; try (unfold b, n; lia).
    rewrite row_xor_zeros. reflexivity. }
  split.
  - split; [unfold b; lia |]. split; [unfold n; lia |]. split.
    + unfold byte_array, flip_bit. rewrite length_xor_at. exact Hlen.
    + apply xor_at_byte, zeros_byte.
  - split; [exact H0 |]. split; [exact H1 |]. rewrite H0, H1. lia.
Qed.

(** C4: a freshly constructed header stores the checksum [calc_check_sum]
    computes, this checksum is [rows + cols + sum(row_parities) +
    sum(col_parities)] with no step of the 32-bit accumulation wrapping, and
    [confirm_check_sum] returns true on it. *)
Theorem fresh_header_check_sum (b n : Z) (byte_array : list Z) :
  let h := ParityHdr_of b n byte_array in
  B h = u16 b /\ N h = u16 n /\
  check_sum h = calc_check_sum h /\
  check_sum h
  = B h + N h + sum_list_Z (row_parities h) + sum_list_Z (col_parities h) /\
  0 <= check_sum h < 4294967296 /\
  confirm_check_sum h = true.
Proof.
  intros h. split; [done |]. split; [done |]. split; [done |]. split.
  - apply ParityHdr_of_exact.
  - split; [| apply ParityHdr_of_confirm].
    by destruct (ParityHdr_of_well_formed b n byte_array).
Qed.

(** C5, as the code has it: when [load_from_serialized] returns false after
    a prefix mismatch, the header is untouched; in every other case
    [check_sum], [B] and [N] have been overwritten from the first prefix copy.
    The two parity arrays are unchanged when the failing check is the prefix
    comparison, the [B + N > check_sum] check or the row-parity-sum check;
    when the failing check is the final [confirm_check_sum] they have already
    been replaced by the payload bytes. *)
Theorem load_failure_state (h : ParityHdr) (ser_PH : list Z) :
  (load_from_serialized h ser_PH).1 = false ->
  let h' := (load_from_serialized h ser_PH).2 in
  (prefix_ok ser_PH = false -> h' = h) /\
  (prefix_ok ser_PH = true ->
     check_sum h' = le_value (read_bytes ser_PH 0 4) /\
     B h' = le_value (read_bytes ser_PH 4 2) /\
     N h' = le_value (read_bytes ser_PH 6 2)) /\
  (prefix_ok ser_PH = false \/ dims_ok ser_PH = false
   \/ row_sum_ok ser_PH = false ->
     row_parities h' = row_parities h /\ col_parities h' = col_parities h) /\
  (prefix_ok ser_PH = true -> dims_ok ser_PH = true ->
   row_sum_ok ser_PH = true ->
     confirm_check_sum (loaded ser_PH) = false /\
     row_parities h' = read_bytes ser_PH 20 (B h') /\
     col_parities h' = read_bytes ser_PH (20 + B h') (N h')).
Proof.
  rewrite load_from_serialized_cases.
  destruct (prefix_ok ser_PH), (dims_ok ser_PH), (row_sum_ok ser_PH);
    cbn [negb fst snd]; intros Hf; cbv zeta;
    cbn [negb fst snd adopted loaded check_sum B N row_parities col_parities];
    intuition congruence.
Qed.

Lemma load_failure_state_witness :
  let h := ParityHdr_of 1 1 [255] in
  let ser_PH := [9; 0; 0; 0; 2; 0; 1; 0;  9; 0; 0; 0; 2; 0; 1; 0;
                 0; 0; 0; 0;  0; 0;  0] in
  let h' := (load_from_serialized h ser_PH).2 in
  (load_from_serialized h ser_PH).1 = false /\
  (prefix_ok ser_PH = true -> dims_ok ser_PH = true ->
   row_sum_ok ser_PH = true ->
     confirm_check_sum (loaded ser_PH) = false /\
     row_parities h' = read_bytes ser_PH 20 (B h') /\
     col_parities h' = read_bytes ser_PH (20 + B h') (N h')).
Proof.
  intros h ser_PH h'.
  assert (Hf : (load_from_serialized h ser_PH).1 = false) by (vm_compute; reflexivity).
  split; [exact Hf |].
  exact (proj2 (proj2 (proj2 (load_failure_state h ser_PH Hf)))).
Defined.

(** C5 fails: a byte sequence that passes the prefix, dimension and
    row-parity-sum checks but not the final checksum makes
    [load_from_serialized] return false after it has replaced both parity
    arrays and overwritten the dimensions of a populated header. *)
Lemma load_failure_mutates :
  let h := ParityHdr_of 1 1 [255] in
  let ser_PH := [9; 0; 0; 0; 2; 0; 1; 0;  9; 0; 0; 0; 2; 0; 1; 0;
                 0; 0; 0; 0;  0; 0;  0] in
  h = mkHdr 257 1 1 [255] [0] /\
  load_from_serialized h ser_PH = (false, mkHdr 9 2 1 [0; 0] [0]) /\
  row_parities (load_from_serialized h ser_PH).2 <> row_parities h /\
  B (load_from_serialized h ser_PH).2 <> B h.
Proof. vm_compute. repeat split; congruence. Qed.

(** C6, as the code has it: whatever bit of the duplicated prefix or of the
    row-parity-sum field of a serialized header is flipped,
    [load_from_serialized] returns false and leaves [row_parities] and
    [col_parities] of the target as they were.  After a flip in the prefix
    region no field of the target has changed; after a flip in the sum field
    [check_sum], [B] and [N] of the target are those of the serialized
    header. *)
Theorem corrupted_header_rejected (h h0 : ParityHdr) (idx : Z) :
  well_formed h -> 0 <= idx < 8 * 20 ->
  let r := load_from_serialized h0 (flip_bit (serialize h) idx) in
  r.1 = false /\
  row_parities r.2 = row_parities h0 /\ col_parities r.2 = col_parities h0 /\
  (idx < 8 * 16 -> r.2 = h0) /\
  (8 * 16 <= idx ->
     check_sum r.2 = check_sum h /\ B r.2 = B h /\ N r.2 = N h).
Proof.
  intros Hwf Hidx r. unfold r. rewrite load_from_serialized_cases.
  destruct (decide (idx < 8 * 16)) as [Hpre|Hsum].
  - rewrite (corrupted_prefix h idx Hwf Hidx)
      by (apply Z.div_lt_upper_bound; lia).
    simpl. repeat split; try done; lia.
  - destruct (corrupted_sum h h0 idx Hwf Hidx) as (H1 & H2 & H3).
    { apply Z.div_le_lower_bound; lia. }
    rewrite H1, H3, H2. simpl.
    destruct (dims_ok (flip_bit (serialize h) idx)); simpl;
      repeat split; try done; lia.
Qed.

Lemma corrupted_header_rejected_witness :
  let h := ParityHdr_of 1 1 [0] in
  let r := load_from_serialized ParityHdr_default (flip_bit (serialize h) 128) in
  (well_formed h /\ 0 <= 128 < 8 * 20) /\
  r.1 = false /\
  row_parities r.2 = row_parities ParityHdr_default /\
  col_parities r.2 = col_parities ParityHdr_default /\
  (128 < 8 * 16 -> r.2 = ParityHdr_default) /\
  (8 * 16 <= 128 ->
     check_sum r.2 = check_sum h /\ B r.2 = B h /\ N r.2 = N h).
Proof.
  intros h r.
  assert (Hwf : well_formed h) by apply ParityHdr_of_well_formed.
  assert (Hidx : 0 <= 128 < 8 * 20) by lia.
  split; [done |].
  exact (corrupted_header_rejected h ParityHdr_default 128 Hwf Hidx).
Defined.

(** C6 fails for the row-parity-sum field: the flip is detected, but only
    after [check_sum], [B] and [N] of the target have been overwritten. *)
Lemma corrupted_sum_mutates :
  let h := ParityHdr_of 1 1 [0] in
  let ser_PH := flip_bit (serialize h) 128 in
  serialize h = [2; 0; 0; 0; 1; 0; 1; 0;  2; 0; 0; 0; 1; 0; 1; 0;
                 0; 0; 0; 0;  0;  0] /\
  ser_PH = [2; 0; 0; 0; 1; 0; 1; 0;  2; 0; 0; 0; 1; 0; 1; 0;
            128; 0; 0; 0;  0;  0] /\
  load_from_serialized ParityHdr_default ser_PH = (false, mkHdr 2 1 1 [] []) /\
  (load_from_serialized ParityHdr_default ser_PH).2 <> ParityHdr_default.
Proof. vm_compute. repeat split; congruence. Qed.

(** C7, as the code has it: [repair_byte_array] changes the buffer only by
    its final single-bit flip.  The checksum of the trusted header is tested
    before the headers are compared: with equal headers of which one passes
    its checksum test (as every header freshly derived from the buffer does)
    it returns normally and leaves the buffer as it is; with a trusted header
    that fails the test it throws the bad-checksum failure, equal headers or
    not.  Whenever it throws (bad trusted checksum, dimension mismatch, or a
    failure of the localisation) the buffer is unchanged. *)
Theorem repair_frame (rcvd_hdr t_hdr : ParityHdr) (t : list Z) :
  let r := repair_byte_array rcvd_hdr t_hdr t in
  (hdr_eq rcvd_hdr t_hdr = true ->
     (confirm_check_sum rcvd_hdr = true \/ confirm_check_sum t_hdr = true) ->
     r = (None, t)) /\
  (forall b n, t_hdr = ParityHdr_of b n t -> hdr_eq rcvd_hdr t_hdr = true ->
     r = (None, t)) /\
  (forall e, r.1 = Some e -> r.2 = t) /\
  (confirm_check_sum rcvd_hdr = false -> r = (Some BadCheckSum, t)) /\
  (confirm_check_sum rcvd_hdr = true -> hdr_eq rcvd_hdr t_hdr = false ->
     (B rcvd_hdr <> B t_hdr \/ N rcvd_hdr <> N t_hdr) ->
     r = (Some DimensionMismatch, t)) /\
  (confirm_check_sum rcvd_hdr = true -> hdr_eq rcvd_hdr t_hdr = false ->
     B rcvd_hdr = B t_hdr -> N rcvd_hdr = N t_hdr ->
     forall e, find_error_locations rcvd_hdr t_hdr (-1) (-1) = inl e ->
     r = (Some e, t)) /\
  (r.2 <> t ->
     r.1 = None /\
     exists i j, find_error_locations rcvd_hdr t_hdr (-1) (-1) = inr (i, j) /\
       r.2 = xor_at t (s32 (s32 (j * B rcvd_hdr) + Z.quot i 8))
                      (Z.shiftr 128 (Z.rem i 8))).
Proof.
  intros r. unfold r, repair_byte_array.
  assert (Heq : hdr_eq rcvd_hdr t_hdr = true ->
     (confirm_check_sum rcvd_hdr = true \/ confirm_check_sum t_hdr = true) ->
     (if negb (confirm_check_sum rcvd_hdr) then (Some BadCheckSum, t)
      else if hdr_eq rcvd_hdr t_hdr then (None, t)
      else if negb (B rcvd_hdr =? B t_hdr) || negb (N rcvd_hdr =? N t_hdr)
      then (Some DimensionMismatch, t)
      else match find_error_locations rcvd_hdr t_hdr (-1) (-1) with
           | inl e => (Some e, t)
           | inr (i, j) =>
               (None, xor_at t (s32 (s32 (j * B rcvd_hdr) + Z.quot i 8))
                             (Z.shiftr 128 (Z.rem i 8)))
           end) = (None, t)).
  { intros He Hc.
    assert (Hc' : confirm_check_sum rcvd_hdr = true).
    { destruct Hc as [Hc|Hc]; [done |]. by rewrite (hdr_eq_confirm _ _ He). }
    by rewrite Hc', He. }
  split; [exact Heq |]. split; [| split; [| split; [| split; [| split]]]].
  - intros b n -> He. apply Heq; [done |]. right. apply ParityHdr_of_confirm.
  - intros e.
    destruct (confirm_check_sum rcvd_hdr); simpl; [| done].
    destruct (hdr_eq rcvd_hdr t_hdr); simpl; [done |].
    destruct (negb (B rcvd_hdr =? B t_hdr) || negb (N rcvd_hdr =? N t_hdr));
      simpl; [done |].
    destruct (find_error_locations rcvd_hdr t_hdr (-1) (-1)) as [e'|[i j]];
      simpl; done.
  - by intros ->.
  - intros -> -> Hd. simpl.
    destruct (Z.eqb_spec (B rcvd_hdr) (B t_hdr)); simpl; [| done].
    destruct (Z.eqb_spec (N rcvd_hdr) (N t_hdr)); simpl; [| done].
    tauto.
  - intros -> -> -> -> e ->. by rewrite !Z.eqb_refl.
  - destruct (confirm_check_sum rcvd_hdr); simpl; [| done].
    destruct (hdr_eq rcvd_hdr t_hdr); simpl; [done |].
    destruct (negb (B rcvd_hdr =? B t_hdr) || negb (N rcvd_hdr =? N t_hdr));
      simpl; [done |].
    destruct (find_error_locations rcvd_hdr t_hdr (-1) (-1)) as [e'|[i j]];
      simpl; [done |].
    intros _. split; [done |]. by exists i, j.
Qed.

(** C7 fails as stated on equal headers whose checksum is wrong: a header
    left by a rejected [load_from_serialized] (a flip in the column parities
    of the message) compared with itself makes [repair_byte_array] throw the
    bad-checksum failure instead of returning. *)
Lemma repair_equal_headers_rejected :
  let ser := flip_bit (serialize (ParityHdr_of 3 3 [0; 0; 0; 0; 0; 0; 0; 0; 0])) 191 in
  let rcvd_hdr := (load_from_serialized ParityHdr_default ser).2 in
  let t_hdr := (load_from_serialized ParityHdr_default ser).2 in
  let t := [0; 0; 0; 0; 0; 0; 0; 0; 0] in
  (load_from_serialized ParityHdr_default ser).1 = false /\
  rcvd_hdr = mkHdr 6 3 3 [0; 0; 0] [1; 0; 0] /\
  confirm_check_sum rcvd_hdr = false /\
  hdr_eq rcvd_hdr t_hdr = true /\
  repair_byte_array rcvd_hdr t_hdr t = (Some BadCheckSum, t) /\
  repair_byte_array rcvd_hdr t_hdr t <> (None, t).
Proof. vm_compute. repeat split; congruence. Qed.

(** C8: every failure of [repair_byte_array] is one of seven failures with
    pairwise different texts.  The two misuse conditions (trusted header
    failing its checksum, dimension mismatch) throw [std::runtime_error]; the
    five localisation failures throw [PC_Exception], each under its own
    condition: no disagreeing column, several of them, no disagreeing row,
    several of them, or a disagreeing row byte that differs in a number of
    bits other than one. *)
Theorem repair_failure_reasons (rcvd_hdr t_hdr : ParityHdr) (t : list Z) (e : exn) :
  B rcvd_hdr < 65536 -> N rcvd_hdr < 65536 ->
  (repair_byte_array rcvd_hdr t_hdr t).1 = Some e ->
  let cols := mismatches (col_parities rcvd_hdr) (col_parities t_hdr) (N rcvd_hdr) in
  let rows := mismatches (row_parities rcvd_hdr) (row_parities t_hdr) (B rcvd_hdr) in
  NoDup (what <$> repair_failures) /\ e ∈ repair_failures /\
  ((e = BadCheckSum /\ confirm_check_sum rcvd_hdr = false) \/
   (e = DimensionMismatch /\ confirm_check_sum rcvd_hdr = true /\
    hdr_eq rcvd_hdr t_hdr = false /\
    (B rcvd_hdr <> B t_hdr \/ N rcvd_hdr <> N t_hdr)) \/
   (confirm_check_sum rcvd_hdr = true /\ hdr_eq rcvd_hdr t_hdr = false /\
    B rcvd_hdr = B t_hdr /\ N rcvd_hdr = N t_hdr /\
    exists msg, e = PC_Exception msg /\
    ((e = NoColumn /\ cols = []) \/
     (e = ManyColumns /\ (1 < length cols)%nat) \/
     (e = NoRow /\ length cols = 1%nat /\ rows = []) \/
     (e = ManyRows /\ length cols = 1%nat /\ (1 < length rows)%nat) \/
     (e = ManyBits /\ length cols = 1%nat /\
      exists i, rows = [i] /\
        popcount8 (u8 (Z.lxor (get (row_parities rcvd_hdr) i)
                              (get (row_parities t_hdr) i))) <> 1)))).
Proof.
  intros HB HN Hfail cols rows.
  split.
  { apply (bool_decide_unpack _). vm_compute. exact I. }
  unfold repair_byte_array in Hfail.
  destruct (confirm_check_sum rcvd_hdr) eqn:Hc; simpl in Hfail.
  2: { injection Hfail as <-. split; [apply list_elem_of_In; simpl; tauto |].
       left. done. }
  destruct (hdr_eq rcvd_hdr t_hdr) eqn:He; simpl in Hfail; [done |].
  destruct (Z.eqb_spec (B rcvd_hdr) (B t_hdr)) as [EB|EB]; simpl in Hfail.
  2: { injection Hfail as <-. split; [apply list_elem_of_In; simpl; tauto |].
       right. left. tauto. }
  destruct (Z.eqb_spec (N rcvd_hdr) (N t_hdr)) as [EN|EN]; simpl in Hfail.
  2: { injection Hfail as <-. split; [apply list_elem_of_In; simpl; tauto |].
       right. left. tauto. }
  destruct (find_error_locations_cases rcvd_hdr t_hdr (-1) (-1) HB HN)
    as [[Hr Hcase] | [[Hr Hcase] | [[Hr Hcase] | [[Hr Hcase] | Hcase]]]];
    fold cols rows in Hcase.
  - rewrite Hr in Hfail. injection Hfail as <-.
    split; [apply list_elem_of_In; simpl; tauto |]. do 2 right.
    repeat (split; [done |]). eexists. split; [done |]. by left.
  - rewrite Hr in Hfail. injection Hfail as <-.
    split; [apply list_elem_of_In; simpl; tauto |]. do 2 right.
    repeat (split; [done |]). eexists. split; [done |]. right. by left.
  - rewrite Hr in Hfail. injection Hfail as <-.
    split; [apply list_elem_of_In; simpl; tauto |]. do 2 right.
    repeat (split; [done |]). eexists. split; [done |]. do 2 right. by left.
  - rewrite Hr in Hfail. injection Hfail as <-.
    split; [apply list_elem_of_In; simpl; tauto |]. do 2 right.
    repeat (split; [done |]). eexists. split; [done |]. do 3 right. by left.
  - destruct Hcase as (i & j & Hcols & Hrows & [[Hr Hp] | [Hp Hr]]).
    + rewrite Hr in Hfail. injection Hfail as <-.
      split; [apply list_elem_of_In; simpl; tauto |]. do 2 right.
      repeat (split; [done |]). eexists. split; [done |]. do 4 right.
      split; [done |]. split; [by rewrite Hcols |]. by exists i.
    + rewrite Hr in Hfail. done.
Qed.

Lemma repair_failure_reasons_witness :
  let rcvd_hdr := ParityHdr_of 1 1 [0] in
  let t_hdr := ParityHdr_of 1 1 [3] in
  (B rcvd_hdr < 65536 /\ N rcvd_hdr < 65536 /\
   (repair_byte_array rcvd_hdr t_hdr [3]).1 = Some NoColumn) /\
  NoDup (what <$> repair_failures) /\ NoColumn ∈ repair_failures /\
  mismatches (col_parities rcvd_hdr) (col_parities t_hdr) (N rcvd_hdr) = [].
Proof.
  intros rcvd_hdr t_hdr.
  assert (HB : B rcvd_hdr < 65536) by (vm_compute; reflexivity).
  assert (HN : N rcvd_hdr < 65536) by (vm_compute; reflexivity).
  assert (Hf : (repair_byte_array rcvd_hdr t_hdr [3]).1 = Some NoColumn)
    by (vm_compute; reflexivity).
  split; [done |].
  destruct (repair_failure_reasons rcvd_hdr t_hdr [3] NoColumn HB HN Hf)
    as (Hnd & Hin & _).
  split; [exact Hnd |]. split; [exact Hin |]. vm_compute. reflexivity.
Defined.

(** C9, as the code has it: construction from a buffer leaves only 0 and 1
    in [col_parities]; [load_from_serialized] copies the [N] column bytes of
    the payload as they are, so after a successful load [col_parities] holds
    only 0 and 1 when the payload does, as it does for the serialization of a
    constructed header. *)
Theorem col_parities_bits :
  (forall b n byte_array,
     Forall is_bit (col_parities (ParityHdr_of b n byte_array))) /\
  (forall h ser_PH,
     (load_from_serialized h ser_PH).1 = true ->
     let h' := (load_from_serialized h ser_PH).2 in
     col_parities h' = read_bytes ser_PH (20 + B h') (N h')) /\
  (forall b n byte_array h0,
     let r := load_from_serialized h0 (serialize (ParityHdr_of b n byte_array)) in
     r.1 = true /\ Forall is_bit (col_parities r.2)).
Proof.
  split; [apply ParityHdr_of_col_bits |]. split.
  - intros h ser_PH. rewrite load_from_serialized_cases.
    destruct (prefix_ok ser_PH), (dims_ok ser_PH), (row_sum_ok ser_PH); simpl;
      done.
  - intros b n byte_array h0 r. unfold r.
    rewrite (load_serialize _ (ParityHdr_of_well_formed b n byte_array) h0
               (ParityHdr_of_confirm b n byte_array)).
    split; [done |]. apply ParityHdr_of_col_bits.
Qed.

(** C9 fails for deserialization: a byte sequence whose column byte is 2 and
    whose checksum field accounts for it is loaded successfully, and leaves 2
    in [col_parities]. *)
Lemma col_parities_not_bits :
  let ser_PH := [4; 0; 0; 0; 1; 0; 1; 0;  4; 0; 0; 0; 1; 0; 1; 0;
                 0; 0; 0; 0;  0;  2] in
  load_from_serialized ParityHdr_default ser_PH = (true, mkHdr 4 1 1 [0] [2]) /\
  ~ Forall is_bit (col_parities (load_from_serialized ParityHdr_default ser_PH).2).
Proof.
  split; [vm_compute; reflexivity |].
  intros H. vm_compute in H. apply Forall_cons in H as [[H | H] _]; congruence.
Qed.

(** C10: the default-constructed header has checksum 0, 0 rows, 0 columns
    and null arrays, and [confirm_check_sum] returns true on it, although it
    is not the header of any buffer with positive dimensions. *)
Theorem default_header_confirms :
  check_sum ParityHdr_default = 0 /\ B ParityHdr_default = 0 /\
  N ParityHdr_default = 0 /\
  row_parities ParityHdr_default = [] /\ col_parities ParityHdr_default = [] /\
  confirm_check_sum ParityHdr_default = true /\
  (forall b n byte_array, 0 < b < 65536 ->
     ParityHdr_of b n byte_array <> ParityHdr_default).
Proof.
  repeat split; try reflexivity.
  intros b n byte_array Hb E.
  assert (H : B (ParityHdr_of b n byte_array) = B ParityHdr_default) by (by rewrite E).
  simpl in H. rewrite u16_id in H by lia. lia.
Qed.

(** ** Further properties of the code *)

Lemma bool_eq_of_iff (b1 b2 : bool) : (b1 = true <-> b2 = true) -> b1 = b2.
Proof. destruct b1, b2; intros [H1 H2]; try done; [by rewrite H1 | by rewrite H2]. Qed.

Lemma hdr_eq_sym h1 h2 : hdr_eq h1 h2 = hdr_eq h2 h1.
Proof.
  apply bool_eq_of_iff. rewrite !hdr_eq_true.
  split; intros (Hc & HB & HN & Hr & Hcl); rewrite ?HB, ?HN in *;
    repeat split; try done; by rewrite <- ?HB, <- ?HN.
Qed.

Lemma hdr_eq_trans h1 h2 h3 :
  hdr_eq h1 h2 = true -> hdr_eq h2 h3 = true -> hdr_eq h1 h3 = true.
Proof.
  rewrite !hdr_eq_true.
  intros (Hc & HB & HN & Hr & Hcl) (Hc' & HB' & HN' & Hr' & Hcl').
  rewrite <- HB in Hr'. rewrite <- HN in Hcl'.
  repeat split; congruence.
Qed.

(** X1: [operator==] is an equivalence on headers: reflexive, symmetric
    (although it reads [lhs.B] and [lhs.N] bytes of both arrays) and
    transitive; [operator!=] is its negation and therefore symmetric too. *)
Theorem hdr_eq_equivalence :
  (forall h, hdr_eq h h = true) /\
  (forall h1 h2, hdr_eq h1 h2 = hdr_eq h2 h1) /\
  (forall h1 h2 h3,
     hdr_eq h1 h2 = true -> hdr_eq h2 h3 = true -> hdr_eq h1 h3 = true) /\
  (forall h1 h2, hdr_neq h1 h2 = hdr_neq h2 h1) /\
  (forall h1 h2, hdr_neq h1 h2 = true <-> hdr_eq h1 h2 = false).
Proof.
  split; [apply hdr_eq_refl |]. split; [apply hdr_eq_sym |].
  split; [apply hdr_eq_trans |]. split.
  - intros h1 h2. unfold hdr_neq. by rewrite hdr_eq_sym.
  - intros h1 h2. unfold hdr_neq. by destruct (hdr_eq h1 h2).
Qed.

Lemma read_bytes_own (a : list Z) (n : Z) :
  Z.of_nat (length a) = n -> read_bytes a 0 n = a.
Proof. intros <-. apply read_bytes_all. Qed.

Lemma hdr_eq_structural h1 h2 :
  well_formed h1 -> well_formed h2 -> hdr_eq h1 h2 = true -> h1 = h2.
Proof.
  intros [_ _ _ Hr1 Hc1 _ _] [_ _ _ Hr2 Hc2 _ _].
  intros (Hc & HB & HN & Hr & Hcl)%hdr_eq_true.
  rewrite (read_bytes_own _ _ Hr1) in Hr. rewrite (read_bytes_own _ _ Hc1) in Hcl.
  rewrite HB in Hr. rewrite HN in Hcl.
  rewrite (read_bytes_own _ _ Hr2) in Hr. rewrite (read_bytes_own _ _ Hc2) in Hcl.
  destruct h1, h2. simpl in *. congruence.
Qed.

(** X2: on headers whose arrays have the sizes their dimensions announce,
    [operator==] holds exactly when all five fields are identical. *)
Theorem hdr_eq_is_equality (h1 h2 : ParityHdr) :
  well_formed h1 -> well_formed h2 ->
  (hdr_eq h1 h2 = true <-> h1 = h2) /\ (hdr_neq h1 h2 = true <-> h1 <> h2).
Proof.
  intros H1 H2.
  assert (E : hdr_eq h1 h2 = true <-> h1 = h2).
  { split; [by apply hdr_eq_structural | intros ->; apply hdr_eq_refl]. }
  split; [exact E |]. unfold hdr_neq.
  destruct (hdr_eq h1 h2); simpl; split; intros H; try done.
  - exfalso. apply H. by apply E.
  - intros He. apply E in He. done.
Qed.

Lemma hdr_eq_is_equality_witness :
  let h1 := ParityHdr_of 2 3 [1; 2; 3; 4; 5; 6] in
  let h2 := ParityHdr_of 2 3 [1; 2; 3; 4; 5; 7] in
  (well_formed h1 /\ well_formed h2) /\
  (hdr_eq h1 h2 = true <-> h1 = h2) /\ (hdr_neq h1 h2 = true <-> h1 <> h2).
Proof.
  intros h1 h2.
  assert (H1 : well_formed h1) by apply ParityHdr_of_well_formed.
  assert (H2 : well_formed h2) by apply ParityHdr_of_well_formed.
  split; [repeat first [assumption | split] |]. exact (hdr_eq_is_equality h1 h2 H1 H2).
Defined.

Lemma le_value_range l :
  Forall is_byte l -> 0 <= le_value l < 256 ^ Z.of_nat (length l).
Proof.
  unfold is_byte. induction 1 as [|x l Hx _ IH]; simpl le_value.
  - simpl. lia.
  - rewrite length_cons, Nat2Z.inj_succ, Z.pow_succ_r by lia. lia.
Qed.

Lemma serialize_sum_exact h :
  well_formed h ->
  add_bytes (row_parities h) 0 (B h) 0 = sum_list_Z (row_parities h).
Proof.
  intros [? ? ? Hr ? Hrb ?].
  rewrite add_bytes_exact by (try done; lia).
  by rewrite (read_bytes_own _ _ Hr).
Qed.

(** X3: the byte sequence [serialize] builds for a header with consistent
    arrays has [20 + B + N] bytes: the little-endian [check_sum], [B], [N]
    twice over (bytes 0-7 and 8-15), the exact sum of the row parities on 4
    bytes, the [B] row parities and the [N] column parities. *)
Theorem serialize_layout (h : ParityHdr) :
  well_formed h ->
  let ser := serialize h in
  Z.of_nat (length ser) = 20 + B h + N h /\ Forall is_byte ser /\
  read_bytes ser 0 8 = read_bytes ser 8 8 /\
  le_value (read_bytes ser 0 4) = check_sum h /\
  le_value (read_bytes ser 4 2) = B h /\
  le_value (read_bytes ser 6 2) = N h /\
  le_value (read_bytes ser 16 4) = sum_list_Z (row_parities h) /\
  read_bytes ser 20 (B h) = row_parities h /\
  read_bytes ser (20 + B h) (N h) = col_parities h.
Proof.
  intros Hwf ser. unfold ser. pose proof Hwf as [? ? ? ? ? ? ?].
  split; [apply length_serialize; lia |].
  split; [by apply serialize_byte |].
  split; [by rewrite serialize_first, serialize_second |].
  split; [by apply decode_check_sum |].
  split; [by apply decode_B |].
  split; [by apply decode_N |].
  split; [rewrite decode_sum; by apply serialize_sum_exact |].
  split; [by apply serialize_rows | by apply serialize_cols].
Qed.

Lemma serialize_layout_witness :
  let h := ParityHdr_of 3 3 [1; 2; 3; 4; 5; 6; 7; 8; 9] in
  let ser := serialize h in
  well_formed h /\
  Z.of_nat (length ser) = 20 + B h + N h /\ Forall is_byte ser /\
  read_bytes ser 0 8 = read_bytes ser 8 8 /\
  le_value (read_bytes ser 0 4) = check_sum h /\
  le_value (read_bytes ser 4 2) = B h /\
  le_value (read_bytes ser 6 2) = N h /\
  le_value (read_bytes ser 16 4) = sum_list_Z (row_parities h) /\
  read_bytes ser 20 (B h) = row_parities h /\
  read_bytes ser (20 + B h) (N h) = col_parities h.
Proof.
  intros h ser.
  assert (Hwf : well_formed h) by apply ParityHdr_of_well_formed.
  split; [repeat first [assumption | split] |]. exact (serialize_layout h Hwf).
Defined.

(** X4: [serialize] loses nothing: two headers with consistent arrays that
    serialize to the same bytes are the same header. *)
Theorem serialize_injective (h1 h2 : ParityHdr) :
  well_formed h1 -> well_formed h2 -> serialize h1 = serialize h2 -> h1 = h2.
Proof.
  intros H1 H2 E.
  pose proof (decode_check_sum h1 H1) as Ec. rewrite E, decode_check_sum in Ec by done.
  pose proof (decode_B h1 H1) as EB. rewrite E, decode_B in EB by done.
  pose proof (decode_N h1 H1) as EN. rewrite E, decode_N in EN by done.
  pose proof (serialize_rows h1 H1) as Er. rewrite E, <- EB, serialize_rows in Er by done.
  pose proof (serialize_cols h1 H1) as El.
  rewrite E, <- EB, <- EN, serialize_cols in El by done.
  destruct h1, h2. simpl in *. congruence.
Qed.

Lemma serialize_injective_witness :
  let h := ParityHdr_of 2 2 [1; 2; 3; 4] in
  (well_formed h /\ serialize h = serialize h) /\ h = h.
Proof.
  intros h.
  assert (Hwf : well_formed h) by apply ParityHdr_of_well_formed.
  split; [repeat first [assumption | split] |]. exact (serialize_injective h h Hwf Hwf eq_refl).
Defined.

Lemma loaded_well_formed ser_PH :
  Forall is_byte ser_PH -> well_formed (loaded ser_PH).
Proof.
  intros Hs.
  pose proof (le_value_range _ (read_bytes_byte ser_PH 0 4 Hs)) as Hc.
  pose proof (le_value_range _ (read_bytes_byte ser_PH 4 2 Hs)) as HB.
  pose proof (le_value_range _ (read_bytes_byte ser_PH 6 2 Hs)) as HN.
  rewrite length_read_bytes in Hc, HB, HN.
  change (256 ^ Z.of_nat (Z.to_nat 4)) with 4294967296 in Hc.
  change (256 ^ Z.of_nat (Z.to_nat 2)) with 65536 in HB, HN.
  unfold loaded. split; cbn [check_sum B N row_parities col_parities];
    try done; rewrite ?length_read_bytes; try lia; by apply read_bytes_byte.
Qed.

(** X5: a successful [load_from_serialized] leaves a header that is
    determined by the bytes alone (nothing of the previous contents
    survives, so the call can be repeated on a used header), passes
    [confirm_check_sum], has dimensions and checksum in range and owns
    arrays of exactly [B] and [N] bytes. *)
Theorem load_success_state (h : ParityHdr) (ser_PH : list Z) :
  Forall is_byte ser_PH ->
  (load_from_serialized h ser_PH).1 = true ->
  let h' := (load_from_serialized h ser_PH).2 in
  h' = loaded ser_PH /\ confirm_check_sum h' = true /\ well_formed h' /\
  B h' + N h' <= check_sum h' /\
  (forall h2, load_from_serialized h2 ser_PH = (true, h')).
Proof.
  intros Hs. rewrite load_from_serialized_cases.
  destruct (prefix_ok ser_PH) eqn:E1; cbn [negb fst snd]; [| done].
  destruct (dims_ok ser_PH) eqn:E2; cbn [negb fst snd]; [| done].
  destruct (row_sum_ok ser_PH) eqn:E3; cbn [negb fst snd]; [| done].
  intros Hc. cbv zeta.
  pose proof (loaded_well_formed ser_PH Hs) as Hwf.
  split; [done |]. split; [done |]. split; [done |]. split.
  - unfold dims_ok in E2. apply negb_true_iff in E2.
    destruct Hwf as [? HB HN _ _ _ _]. unfold loaded in *.
    cbn [check_sum B N row_parities col_parities] in *.
    rewrite u32_id in E2 by lia.
    destruct (Z.gtb_spec (le_value (read_bytes ser_PH 4 2)
                          + le_value (read_bytes ser_PH 6 2))
                (le_value (read_bytes ser_PH 0 4))); [done | lia].
  - intros h2. rewrite load_from_serialized_cases, E1, E2, E3.
    cbn [negb]. by rewrite Hc.
Qed.

Lemma load_success_state_witness :
  let ser_PH := [4; 0; 0; 0; 1; 0; 1; 0;  4; 0; 0; 0; 1; 0; 1; 0;
                 0; 0; 0; 0;  0;  2] in
  let h := ParityHdr_of 1 1 [255] in
  let h' := (load_from_serialized h ser_PH).2 in
  (Forall is_byte ser_PH /\ (load_from_serialized h ser_PH).1 = true) /\
  h' = loaded ser_PH /\ confirm_check_sum h' = true /\ well_formed h' /\
  B h' + N h' <= check_sum h' /\
  (forall h2, load_from_serialized h2 ser_PH = (true, h')).
Proof.
  intros ser_PH h h'.
  assert (Hs : Forall is_byte ser_PH).
  { unfold ser_PH. repeat constructor; unfold is_byte; lia. }
  assert (Ht : (load_from_serialized h ser_PH).1 = true) by (vm_compute; reflexivity).
  split; [repeat first [assumption | split] |]. exact (load_success_state h ser_PH Hs Ht).
Defined.

Lemma byte_pair_cases (P : Z -> Z -> bool) :
  forallb (fun x => forallb (P x) (seqZ 0 256)) (seqZ 0 256) = true ->
  forall x y, is_byte x -> is_byte y -> P x y = true.
Proof.
  intros H x y Hx Hy.
  pose proof (byte_cases (fun x => forallb (P x) (seqZ 0 256)) H x Hx) as Hrow.
  by apply (byte_cases (P x)).
Qed.

Lemma byte_parity_lxor x y :
  is_byte x -> is_byte y ->
  byte_parity (Z.lxor x y) = Z.lxor (byte_parity x) (byte_parity y).
Proof.
  intros Hx Hy. apply Z.eqb_eq.
  apply (byte_pair_cases
    (fun x y => byte_parity (Z.lxor x y) =? Z.lxor (byte_parity x) (byte_parity y)));
    [| done | done].
  vm_compute. reflexivity.
Qed.

(** X6: [byte_parity] of a byte is 0 or 1, namely the number of its set
    bits modulo 2, and it turns XOR of bytes into XOR of parities. *)
Theorem byte_parity_popcount (x : Z) :
  is_byte x ->
  (byte_parity x = 0 \/ byte_parity x = 1) /\
  byte_parity x = popcount8 x mod 2 /\
  (forall y, is_byte y ->
     byte_parity (Z.lxor x y) = Z.lxor (byte_parity x) (byte_parity y)).
Proof.
  intros Hx. split; [apply byte_parity_bit |]. split.
  - apply Z.eqb_eq.
    apply (byte_cases (fun x => byte_parity x =? popcount8 x mod 2)); [| done].
    vm_compute. reflexivity.
  - intros y Hy. by apply byte_parity_lxor.
Qed.

Lemma byte_parity_popcount_witness :
  is_byte 7 /\
  (byte_parity 7 = 0 \/ byte_parity 7 = 1) /\
  byte_parity 7 = popcount8 7 mod 2 /\
  (forall y, is_byte y ->
     byte_parity (Z.lxor 7 y) = Z.lxor (byte_parity 7) (byte_parity y)).
Proof.
  assert (H7 : is_byte 7) by (unfold is_byte; lia).
  split; [repeat first [assumption | split] |]. exact (byte_parity_popcount 7 H7).
Defined.

Lemma sum_list_Z_zeros n : sum_list_Z (zeros n) = 0.
Proof.
  unfold zeros. induction (Z.to_nat n) as [|k IH]; [done |].
  simpl replicate. by rewrite sum_list_Z_cons, IH.
Qed.

(** X7: with zero rows or zero columns (also when the [unsigned short]
    parameter truncates a multiple of 65536 to 0) the constructor never reads
    the buffer and never divides by [B]: both parity arrays are zero, the
    checksum is [B + N], and the header passes [confirm_check_sum]. *)
Theorem ParityHdr_of_zero_dimension (b n : Z) (byte_array : list Z) :
  u16 b = 0 \/ u16 n = 0 ->
  ParityHdr_of b n byte_array
  = mkHdr (u16 b + u16 n) (u16 b) (u16 n) (zeros (u16 b)) (zeros (u16 n)) /\
  confirm_check_sum (ParityHdr_of b n byte_array) = true.
Proof.
  intros Hz. split; [| apply ParityHdr_of_confirm].
  assert (Hov : s32 (u16 b * u16 n) <= 0).
  { destruct Hz as [-> | ->]; rewrite ?Z.mul_0_l, ?Z.mul_0_r; by vm_compute. }
  unfold ParityHdr_of. rewrite calculate_parities_overflow by done.
  cbn [fst snd]. f_equal.
  pose proof (u16_range b). pose proof (u16_range n).
  rewrite calc_check_sum_exact;
    rewrite ?length_zeros, ?sum_list_Z_zeros; try apply zeros_byte; lia.
Qed.

Lemma ParityHdr_of_zero_dimension_witness :
  (u16 65536 = 0 \/ u16 3 = 0) /\
  ParityHdr_of 65536 3 [1; 2; 3]
  = mkHdr (u16 65536 + u16 3) (u16 65536) (u16 3) (zeros (u16 65536)) (zeros (u16 3)) /\
  confirm_check_sum (ParityHdr_of 65536 3 [1; 2; 3]) = true.
Proof.
  assert (Hz : u16 65536 = 0 \/ u16 3 = 0) by (left; reflexivity).
  split; [exact Hz |].
  exact (ParityHdr_of_zero_dimension 65536 3 [1; 2; 3] Hz).
Defined.

(** *** One flipped bit anywhere in a serialized header *)

Lemma flip_read_other ser idx off n :
  Forall is_byte ser -> 0 <= idx < 8 * Z.of_nat (length ser) ->
  idx / 8 < off \/ off + n <= idx / 8 ->
  read_bytes (flip_bit ser idx) off n = read_bytes ser off n.
Proof.
  intros Hs Hidx H. apply read_bytes_ext. intros i Hi.
  rewrite get_flip_bit_any by done.
  rewrite decide_False by lia. apply Z.lxor_0_r.
Qed.

Lemma flip_sum_other ser idx off n s :
  Forall is_byte ser -> 0 <= idx < 8 * Z.of_nat (length ser) ->
  idx / 8 < off \/ off + n <= idx / 8 ->
  add_bytes (flip_bit ser idx) off n s = add_bytes ser off n s.
Proof.
  intros Hs Hidx H. apply add_bytes_ext. intros i Hi.
  rewrite get_flip_bit_any by done.
  rewrite decide_False by lia. apply Z.lxor_0_r.
Qed.

(** A read that covers the damaged byte sees that one byte changed. *)
Lemma flip_read_covering ser idx off n :
  Forall is_byte ser -> 0 <= idx < 8 * Z.of_nat (length ser) ->
  off <= idx / 8 < off + n ->
  read_bytes (flip_bit ser idx) off n
  = alter (fun x => Z.lxor x (Z.shiftr 128 (idx mod 8)))
          (Z.to_nat (idx / 8 - off)) (read_bytes ser off n).
Proof.
  intros Hs Hidx Hp. apply list_eq. intros k.
  destruct (decide (Z.of_nat k < n)) as [Hk|Hk].
  - rewrite lookup_read_bytes by done. rewrite get_flip_bit_any by done.
    destruct (decide (k = Z.to_nat (idx / 8 - off))) as [->|Hne].
    + rewrite list_lookup_alter_eq, lookup_read_bytes by lia.
      rewrite decide_True by lia. done.
    + rewrite list_lookup_alter_ne, lookup_read_bytes by done.
      rewrite decide_False by lia. by rewrite Z.lxor_0_r.
  - rewrite !lookup_ge_None_2; [done | |];
      rewrite ?length_alter, length_read_bytes; lia.
Qed.

Lemma sum_list_Z_alter (f : Z -> Z) (l : list Z) (k : nat) (x : Z) :
  l !! k = Some x -> sum_list_Z (alter f k l) = sum_list_Z l - x + f x.
Proof.
  revert k. induction l as [|y l IH]; intros [|k] H; try done.
  - injection H as ->. change (alter f 0%nat (x :: l)) with (f x :: l).
    rewrite !sum_list_Z_cons. lia.
  - change (alter f (S k) (y :: l)) with (y :: alter f k l).
    rewrite !sum_list_Z_cons, (IH k) by done. lia.
Qed.

Lemma sum_list_Z_flip (l : list Z) (k : nat) (m : Z) :
  (k < length l)%nat -> m <> 0 ->
  sum_list_Z (alter (fun x => Z.lxor x m) k l) <> sum_list_Z l.
Proof.
  intros Hk Hm. destruct (lookup_lt_is_Some_2 l k Hk) as [x Hx].
  rewrite (sum_list_Z_alter _ _ _ x) by done.
  pose proof (lxor_nonzero_neq x m Hm). lia.
Qed.

Lemma alter_lxor_byte (l : list Z) (k : nat) (m : Z) :
  Forall is_byte l -> is_byte m ->
  Forall is_byte (alter (fun x => Z.lxor x m) k l).
Proof.
  intros Hl Hm. apply Forall_alter; [done |]. intros x _ Hx. by apply lxor_byte.
Qed.

Section payload_flip.
Variables (h : ParityHdr) (idx : Z).
Hypothesis Hwf : well_formed h.
Hypothesis Hconf : confirm_check_sum h = true.
Hypothesis Hidx : 8 * 20 <= idx < 8 * (20 + B h + N h).

Let ser := serialize h.
Let ser' := flip_bit ser idx.
Let p := idx / 8.
Let m := Z.shiftr 128 (idx mod 8).

Lemma payload_p_range : 20 <= p < 20 + B h + N h.
Proof.
  unfold p. split; [apply Z.div_le_lower_bound; lia |
                    apply Z.div_lt_upper_bound; lia].
Qed.

Lemma payload_m : is_byte m /\ m <> 0.
Proof.
  assert (0 <= idx mod 8 < 8) by (apply Z.mod_pos_bound; lia).
  split; [by apply mask_byte | by apply mask_nonzero].
Qed.

Lemma payload_ser : Forall is_byte ser /\ 0 <= idx < 8 * Z.of_nat (length ser).
Proof.
  destruct Hwf. split; [by apply serialize_byte |].
  unfold ser. rewrite length_serialize by lia. lia.
Qed.

Lemma payload_check_sum :
  check_sum h = B h + N h + sum_list_Z (row_parities h) + sum_list_Z (col_parities h).
Proof.
  unfold confirm_check_sum in Hconf. apply Z.eqb_eq in Hconf. rewrite Hconf.
  destruct Hwf. destruct h. by apply calc_check_sum_exact.
Qed.

(** The prefix and the sum field are read as they were sent. *)
Lemma payload_fixed_part :
  prefix_ok ser' = true /\ dims_ok ser' = true /\
  le_value (read_bytes ser' 0 4) = check_sum h /\
  le_value (read_bytes ser' 4 2) = B h /\
  le_value (read_bytes ser' 6 2) = N h /\
  le_value (read_bytes ser' 16 4) = sum_list_Z (row_parities h).
Proof.
  pose proof payload_p_range as Hp. destruct payload_ser as [Hs Hi].
  pose proof payload_check_sum as Hsum. pose proof Hwf as [? ? ? ? ? Hrb Hcb].
  pose proof (sum_list_Z_bound _ Hrb). pose proof (sum_list_Z_bound _ Hcb).
  assert (E4 : le_value (read_bytes ser' 0 4) = check_sum h).
  { unfold ser'. rewrite flip_read_other by (try done; lia).
    by apply decode_check_sum. }
  assert (EB : le_value (read_bytes ser' 4 2) = B h).
  { unfold ser'. rewrite flip_read_other by (try done; lia). by apply decode_B. }
  assert (EN : le_value (read_bytes ser' 6 2) = N h).
  { unfold ser'. rewrite flip_read_other by (try done; lia). by apply decode_N. }
  split; [| split; [| split; [done | split; [done | split; [done |]]]]].
  - unfold prefix_ok, ser'. rewrite !flip_read_other by (try done; lia).
    apply bool_decide_eq_true_2. unfold ser.
    by rewrite serialize_first, serialize_second.
  - unfold dims_ok. rewrite E4, EB, EN, u32_id by lia.
    destruct (Z.gtb_spec (B h + N h) (check_sum h)); [lia | done].
  - unfold ser'. rewrite flip_read_other by (try done; lia). unfold ser.
    rewrite decode_sum. by apply serialize_sum_exact.
Qed.

(** A flip in the row parities changes their sum. *)
Lemma payload_rows : p < 20 + B h -> row_sum_ok ser' = false.
Proof.
  intros Hrow. pose proof payload_p_range as Hp. destruct payload_ser as [Hs Hi].
  destruct payload_fixed_part as (_ & _ & _ & EB & _ & ES).
  destruct payload_m as [Hmb Hm0]. pose proof Hwf as [? ? ? Hr ? Hrb ?].
  unfold row_sum_ok. rewrite EB, ES. apply Z.eqb_neq.
  rewrite add_bytes_exact;
    [| unfold ser'; apply xor_at_byte, Hs | lia | lia | lia].
  unfold ser'. rewrite flip_read_covering by (try done; fold p; lia).
  unfold ser. rewrite serialize_rows by done. rewrite Z.add_0_l.
  apply sum_list_Z_flip; [fold p; lia | done].
Qed.

(** A flip in the column parities passes the sum check and fails the final
    checksum. *)
Lemma payload_cols :
  20 + B h <= p ->
  row_sum_ok ser' = true /\ confirm_check_sum (loaded ser') = false /\
  row_parities (loaded ser') = row_parities h /\
  col_parities (loaded ser') <> col_parities h.
Proof.
  intros Hcol. pose proof payload_p_range as Hp. destruct payload_ser as [Hs Hi].
  destruct payload_fixed_part as (_ & _ & E4 & EB & EN & ES).
  destruct payload_m as [Hmb Hm0].
  pose proof Hwf as [? ? ? Hr Hcl Hrb Hcb].
  pose proof payload_check_sum as Hsum.
  assert (Erow : read_bytes ser' 20 (B h) = row_parities h).
  { unfold ser'. rewrite flip_read_other by (try done; fold p; lia).
    by apply serialize_rows. }
  assert (Ecol : read_bytes ser' (20 + B h) (N h)
                 = alter (fun x => Z.lxor x m)
                     (Z.to_nat (p - (20 + B h))) (col_parities h)).
  { unfold ser'. rewrite flip_read_covering by (try done; fold p; lia).
    unfold ser. by rewrite serialize_cols. }
  assert (Hne : sum_list_Z (read_bytes ser' (20 + B h) (N h))
                <> sum_list_Z (col_parities h)).
  { rewrite Ecol. apply sum_list_Z_flip; [lia | done]. }
  split; [| split; [| split]].
  - unfold row_sum_ok. rewrite EB, ES. apply Z.eqb_eq.
    unfold ser'. rewrite flip_sum_other by (try done; fold p; lia).
    unfold ser. rewrite serialize_row_sum by done. by apply serialize_sum_exact.
  - unfold confirm_check_sum, loaded. cbn [check_sum]. rewrite E4, EB, EN.
    apply Z.eqb_neq. rewrite Erow.
    rewrite calc_check_sum_exact; try done.
    + lia.
    + rewrite length_read_bytes. lia.
    + rewrite Ecol. by apply alter_lxor_byte.
  - unfold loaded. cbn [row_parities]. by rewrite EB.
  - unfold loaded. cbn [col_parities]. rewrite EB, EN. intros E.
    by rewrite E in Hne.
Qed.
End payload_flip.

(** X8: no single flipped bit gets a serialized header accepted: for the
    serialization of a consistent header with a correct checksum, flipping
    any one bit of the [20 + B + N] bytes makes [load_from_serialized] return
    false.  A flip in the column parities is found only by the final
    checksum, after the target's arrays were replaced by the damaged ones. *)
Theorem single_flip_rejected (h h0 : ParityHdr) (idx : Z) :
  well_formed h -> confirm_check_sum h = true ->
  0 <= idx < 8 * (20 + B h + N h) ->
  let r := load_from_serialized h0 (flip_bit (serialize h) idx) in
  r.1 = false /\
  (8 * (20 + B h) <= idx ->
     row_parities r.2 = row_parities h /\ col_parities r.2 <> col_parities h).
Proof.
  intros Hwf Hc Hidx r. unfold r. rewrite load_from_serialized_cases.
  pose proof Hwf as [? ? ? ? ? ? ?].
  destruct (decide (idx < 8 * 16)) as [Hpre|Hnpre].
  { rewrite (corrupted_prefix h idx Hwf) by (try lia; apply Z.div_lt_upper_bound; lia).
    cbn [negb fst snd]. split; [done | lia]. }
  destruct (decide (idx < 8 * 20)) as [Hsum|Hpay].
  { destruct (corrupted_sum h h0 idx Hwf) as (H1 & _ & H3);
      [lia | apply Z.div_le_lower_bound; lia |].
    rewrite H1, H3. cbn [negb].
    destruct (dims_ok (flip_bit (serialize h) idx)); cbn [negb fst snd];
      (split; [done | lia]). }
  destruct (payload_fixed_part h idx Hwf Hc) as (H1 & H2 & _); [lia |].
  rewrite H1, H2. cbn [negb].
  destruct (decide (idx < 8 * (20 + B h))) as [Hrow|Hcol].
  - rewrite (payload_rows h idx Hwf Hc) by (try lia; apply Z.div_lt_upper_bound; lia).
    cbn [negb fst snd]. split; [done | lia].
  - destruct (payload_cols h idx Hwf Hc) as (H3 & H4 & H5 & H6);
      [lia | apply Z.div_le_lower_bound; lia |].
    rewrite H3, H4. cbn [negb fst snd]. split; [done |]. intros _. done.
Qed.

Lemma single_flip_rejected_witness :
  let h := ParityHdr_of 2 2 [1; 2; 3; 4] in
  let r := load_from_serialized ParityHdr_default (flip_bit (serialize h) 183) in
  (well_formed h /\ confirm_check_sum h = true /\ 0 <= 183 < 8 * (20 + B h + N h)) /\
  r.1 = false /\
  (8 * (20 + B h) <= 183 ->
     row_parities r.2 = row_parities h /\ col_parities r.2 <> col_parities h).
Proof.
  intros h r.
  assert (Hwf : well_formed h) by apply ParityHdr_of_well_formed.
  assert (Hc : confirm_check_sum h = true) by apply ParityHdr_of_confirm.
  assert (Hi : 0 <= 183 < 8 * (20 + B h + N h)) by (vm_compute; split; congruence).
  split; [repeat first [assumption | split] |]. exact (single_flip_rejected h ParityHdr_default 183 Hwf Hc Hi).
Defined.

(** *** What the localisation returns *)

Lemma elem_of_mismatches a b n k :
  k ∈ mismatches a b n <-> get a k <> get b k /\ 0 <= k < n.
Proof.
  unfold mismatches. rewrite list_elem_of_filter, elem_of_seqZ.
  split; intros [H1 H2]; (split; [done | lia]).
Qed.

Lemma mismatches_singleton a b n j :
  mismatches a b n = [j] ->
  0 <= j < n /\ get a j <> get b j /\
  (forall k, 0 <= k < n -> k <> j -> get a k = get b k).
Proof.
  intros E.
  assert (Hj : j ∈ mismatches a b n) by (rewrite E; left).
  apply elem_of_mismatches in Hj as [Hd Hr].
  split; [done |]. split; [done |]. intros k Hk Hne.
  destruct (decide (get a k = get b k)) as [|Hd']; [done |].
  assert (Hin : k ∈ mismatches a b n) by (by apply elem_of_mismatches).
  rewrite E in Hin. apply list_elem_of_singleton in Hin. done.
Qed.

Lemma mismatches_nil a b n k :
  mismatches a b n = [] -> 0 <= k < n -> get a k = get b k.
Proof.
  intros E Hk. destruct (decide (get a k = get b k)) as [|Hd]; [done |].
  assert (Hin : k ∈ mismatches a b n) by (by apply elem_of_mismatches).
  rewrite E in Hin. by apply not_elem_of_nil in Hin.
Qed.

(** When exactly one bit of [flips] is set, the bit loop records its
    position, counted from the most significant bit. *)
Lemma bit_scan_single z :
  is_byte z -> popcount8 z = 1 ->
  0 <= (bit_scan z).1.2 < 8 /\ z = Z.shiftr 128 (bit_scan z).1.2.
Proof.
  intros Hz H.
  assert (E : implb (popcount8 z =? 1)
                ((0 <=? (bit_scan z).1.2) && ((bit_scan z).1.2 <? 8)
                 && (z =? Z.shiftr 128 (bit_scan z).1.2)) = true).
  { apply (byte_cases (fun z => implb (popcount8 z =? 1)
                ((0 <=? (bit_scan z).1.2) && ((bit_scan z).1.2 <? 8)
                 && (z =? Z.shiftr 128 (bit_scan z).1.2)))); [| done].
    vm_compute. reflexivity. }
  apply Z.eqb_eq in H. rewrite H in E. change (implb true ?x) with x in E.
  apply andb_true_iff in E as [E E3]. apply andb_true_iff in E as [E1 E2].
  apply Z.leb_le in E1. apply Z.ltb_lt in E2. apply Z.eqb_eq in E3.
  split; [lia | done].
Qed.

Lemma find_error_locations_inr rcvd_hdr t_hdr i0 j0 i j :
  B rcvd_hdr < 65536 -> N rcvd_hdr < 65536 ->
  find_error_locations rcvd_hdr t_hdr i0 j0 = inr (i, j) ->
  0 <= i / 8 < B rcvd_hdr /\ 0 <= i mod 8 < 8 /\
  mismatches (col_parities rcvd_hdr) (col_parities t_hdr) (N rcvd_hdr) = [j] /\
  mismatches (row_parities rcvd_hdr) (row_parities t_hdr) (B rcvd_hdr) = [i / 8] /\
  u8 (Z.lxor (get (row_parities rcvd_hdr) (i / 8)) (get (row_parities t_hdr) (i / 8)))
  = Z.shiftr 128 (i mod 8).
Proof.
  intros HB HN Hf.
  destruct (find_error_locations_cases rcvd_hdr t_hdr i0 j0 HB HN)
    as [[Hr _] | [[Hr _] | [[Hr _] | [[Hr _] | Hcase]]]];
    try (rewrite Hf in Hr; done).
  destruct Hcase as (i' & j' & Hcols & Hrows & [[Hr _] | [Hp Hr]]);
    [rewrite Hf in Hr; done |].
  rewrite Hf in Hr. injection Hr as Hi Hj. subst j'.
  destruct (mismatches_singleton _ _ _ _ Hrows) as (Hi' & _ & _).
  destruct (bit_scan_single _ (u8_byte _) Hp) as [Hfb Hm].
  set (fb := (bit_scan (u8 (Z.lxor (get (row_parities rcvd_hdr) i')
                                  (get (row_parities t_hdr) i')))).1.2) in *.
  rewrite (s32_id (8 * i')) in Hi by (unfold INT_MAX; lia).
  rewrite s32_id in Hi by (unfold INT_MAX; lia).
  assert (Hq : i / 8 = i').
  { symmetry. apply (Z.div_unique i 8 i' fb); lia. }
  assert (Hk : i mod 8 = fb).
  { symmetry. apply (Z.mod_unique i 8 i' fb); lia. }
  rewrite Hq, Hk. done.
Qed.

Lemma find_error_locations_start rcvd_hdr t_hdr i0 j0 i1 j1 i j :
  B rcvd_hdr < 65536 -> N rcvd_hdr < 65536 ->
  find_error_locations rcvd_hdr t_hdr i0 j0 = inr (i, j) ->
  find_error_locations rcvd_hdr t_hdr i1 j1 = inr (i, j).
Proof.
  intros HB HN Hf. pose proof Hf as Hf0. revert Hf.
  unfold find_error_locations.
  rewrite !scan_count by (unfold INT_MAX; lia).
  destruct (find_error_locations_inr _ _ _ _ _ _ HB HN Hf0)
    as (_ & _ & -> & -> & _).
  done.
Qed.

(** X9: when [find_error_locations] returns, [*i] is a bit row in
    [[0, 8*B-1]] and [*j] a column in [[0, N-1]], as its comment says: [*j] is
    the only column and [*i / 8] the only row whose parities disagree, and
    the XOR of the two parities of that row is the single bit [*i % 8]
    (counted from the most significant bit).  The values the caller left in
    [*i] and [*j] never show through. *)
Theorem find_error_locations_result
    (rcvd_hdr t_hdr : ParityHdr) (i0 j0 i j : Z) :
  B rcvd_hdr < 65536 -> N rcvd_hdr < 65536 ->
  find_error_locations rcvd_hdr t_hdr i0 j0 = inr (i, j) ->
  0 <= i < 8 * B rcvd_hdr /\ 0 <= j < N rcvd_hdr /\
  mismatches (col_parities rcvd_hdr) (col_parities t_hdr) (N rcvd_hdr) = [j] /\
  mismatches (row_parities rcvd_hdr) (row_parities t_hdr) (B rcvd_hdr) = [i / 8] /\
  u8 (Z.lxor (get (row_parities rcvd_hdr) (i / 8)) (get (row_parities t_hdr) (i / 8)))
  = Z.shiftr 128 (i mod 8) /\
  (forall i1 j1, find_error_locations rcvd_hdr t_hdr i1 j1 = inr (i, j)).
Proof.
  intros HB HN Hf.
  destruct (find_error_locations_inr _ _ _ _ _ _ HB HN Hf)
    as (Hrow & Hk & Hcols & Hrows & Hm).
  destruct (mismatches_singleton _ _ _ _ Hcols) as (Hj & _ & _).
  pose proof (Z.div_mod i 8).
  split; [lia |]. split; [done |]. split; [done |]. split; [done |].
  split; [done |]. intros i1 j1. by apply (find_error_locations_start _ _ i0 j0).
Qed.

Lemma find_error_locations_result_witness :
  let rcvd_hdr := ParityHdr_of 3 3 [0; 0; 0; 0; 0; 0; 0; 0; 0] in
  let t_hdr := ParityHdr_of 3 3 [0; 0; 0; 0; 16; 0; 0; 0; 0] in
  (B rcvd_hdr < 65536 /\ N rcvd_hdr < 65536 /\
   find_error_locations rcvd_hdr t_hdr (-1) (-1) = inr (11, 1)) /\
  0 <= 11 < 8 * B rcvd_hdr /\ 0 <= 1 < N rcvd_hdr /\
  mismatches (col_parities rcvd_hdr) (col_parities t_hdr) (N rcvd_hdr) = [1] /\
  mismatches (row_parities rcvd_hdr) (row_parities t_hdr) (B rcvd_hdr) = [11 / 8] /\
  u8 (Z.lxor (get (row_parities rcvd_hdr) (11 / 8)) (get (row_parities t_hdr) (11 / 8)))
  = Z.shiftr 128 (11 mod 8) /\
  (forall i1 j1, find_error_locations rcvd_hdr t_hdr i1 j1 = inr (11, 1)).
Proof.
  intros rcvd_hdr t_hdr.
  assert (HB : B rcvd_hdr < 65536) by (vm_compute; reflexivity).
  assert (HN : N rcvd_hdr < 65536) by (vm_compute; reflexivity).
  assert (Hf : find_error_locations rcvd_hdr t_hdr (-1) (-1) = inr (11, 1))
    by (vm_compute; reflexivity).
  split; [repeat first [assumption | split] |].
  exact (find_error_locations_result rcvd_hdr t_hdr (-1) (-1) 11 1 HB HN Hf).
Defined.

(** *** What a normal return of the repair means *)

Lemma flip_bit_at (t : list Z) (p k : Z) :
  0 <= p -> 0 <= k < 8 ->
  flip_bit t (8 * p + k) = xor_at t p (Z.shiftr 128 k).
Proof.
  intros Hp Hk. unfold flip_bit.
  rewrite Z.quot_div_nonneg, Z.rem_mod_nonneg by lia.
  rewrite <- (Z.div_unique (8 * p + k) 8 p k) by lia.
  rewrite <- (Z.mod_unique (8 * p + k) 8 p k) by lia. done.
Qed.

(** A normal return of [repair_byte_array]: either the headers were equal and
    nothing was written, or the bit at bit row [i] of column [j] was
    flipped. *)
Lemma repair_success rcvd_hdr t_hdr t t' :
  0 <= B rcvd_hdr < 65536 -> 0 <= N rcvd_hdr < 65536 ->
  B rcvd_hdr * N rcvd_hdr <= INT_MAX ->
  repair_byte_array rcvd_hdr t_hdr t = (None, t') ->
  confirm_check_sum rcvd_hdr = true /\
  (hdr_eq rcvd_hdr t_hdr = true /\ t' = t \/
   hdr_eq rcvd_hdr t_hdr = false /\
   B rcvd_hdr = B t_hdr /\ N rcvd_hdr = N t_hdr /\
   exists i j,
     find_error_locations rcvd_hdr t_hdr (-1) (-1) = inr (i, j) /\
     0 <= j * B rcvd_hdr + i / 8 < B rcvd_hdr * N rcvd_hdr /\
     t' = flip_bit t (8 * (j * B rcvd_hdr + i / 8) + i mod 8)).
Proof.
  intros HB HN Hint. unfold repair_byte_array.
  destruct (confirm_check_sum rcvd_hdr); cbn [negb]; [| done].
  destruct (hdr_eq rcvd_hdr t_hdr); [intros [= <-]; split; [done | by left] |].
  destruct (Z.eqb_spec (B rcvd_hdr) (B t_hdr)) as [EB|]; cbn [negb orb]; [| done].
  destruct (Z.eqb_spec (N rcvd_hdr) (N t_hdr)) as [EN|]; cbn [negb orb]; [| done].
  destruct (find_error_locations rcvd_hdr t_hdr (-1) (-1)) as [e|[i j]] eqn:Hf;
    [done |].
  intros [= <-]. split; [done |]. right.
  split; [done |]. split; [done |]. split; [done |]. exists i, j.
  destruct (find_error_locations_inr _ _ _ _ _ _ (proj2 HB) (proj2 HN) Hf)
    as (Hrow & Hk & Hcols & _ & _).
  destruct (mismatches_singleton _ _ _ _ Hcols) as (Hj & _ & _).
  assert (Hp : 0 <= j * B rcvd_hdr + i / 8 < B rcvd_hdr * N rcvd_hdr) by nia.
  split; [done |]. split; [done |].
  assert (Hi : 0 <= i) by (pose proof (Z.div_mod i 8); lia).
  rewrite flip_bit_at by lia.
  rewrite Z.quot_div_nonneg, Z.rem_mod_nonneg by lia.
  unfold INT_MAX in Hint.
  rewrite (s32_id (j * B rcvd_hdr)) by (unfold INT_MAX; nia).
  rewrite s32_id by (unfold INT_MAX; lia). done.
Qed.

(** X10: [repair_byte_array] never changes more than one bit: when it
    returns normally on a buffer of [B * N] bytes, the buffer is unchanged if
    the headers were equal and differs from what it was in exactly one bit
    otherwise. *)
Theorem repair_flips_one_bit (rcvd_hdr t_hdr : ParityHdr) (t : list Z) :
  0 <= B rcvd_hdr < 65536 -> 0 <= N rcvd_hdr < 65536 ->
  B rcvd_hdr * N rcvd_hdr <= INT_MAX ->
  Z.of_nat (length t) = B rcvd_hdr * N rcvd_hdr -> Forall is_byte t ->
  (repair_byte_array rcvd_hdr t_hdr t).1 = None ->
  let t' := (repair_byte_array rcvd_hdr t_hdr t).2 in
  (hdr_eq rcvd_hdr t_hdr = true -> t' = t) /\
  (hdr_eq rcvd_hdr t_hdr = false -> differs_in_one_bit t t').
Proof.
  intros HB HN Hint Hlen Hbytes Hok t'.
  assert (E : repair_byte_array rcvd_hdr t_hdr t = (None, t')).
  { unfold t'. destruct (repair_byte_array rcvd_hdr t_hdr t) as [o b].
    simpl in *. by rewrite Hok. }
  destruct (repair_success _ _ _ _ HB HN Hint E)
    as [_ [[He ->] | (He & _ & _ & i & j & Hf & Hp & ->)]].
  - split; [done | by rewrite He].
  - split; [by rewrite He |]. intros _.
    assert (0 <= i mod 8 < 8) by (apply Z.mod_pos_bound; lia).
    apply flip_bit_differs; [done | lia].
Qed.

Lemma repair_flips_one_bit_witness :
  let rcvd_hdr := ParityHdr_of 3 3 [0; 0; 0; 0; 0; 0; 0; 0; 0] in
  let t := [0; 0; 0; 0; 16; 0; 0; 0; 0] in
  let t_hdr := ParityHdr_of 3 3 t in
  let t' := (repair_byte_array rcvd_hdr t_hdr t).2 in
  (0 <= B rcvd_hdr < 65536 /\ 0 <= N rcvd_hdr < 65536 /\
   B rcvd_hdr * N rcvd_hdr <= INT_MAX /\
   Z.of_nat (length t) = B rcvd_hdr * N rcvd_hdr /\ Forall is_byte t /\
   (repair_byte_array rcvd_hdr t_hdr t).1 = None) /\
  (hdr_eq rcvd_hdr t_hdr = true -> t' = t) /\
  (hdr_eq rcvd_hdr t_hdr = false -> differs_in_one_bit t t').
Proof.
  intros rcvd_hdr t t_hdr t'.
  assert (HB : 0 <= B rcvd_hdr < 65536) by (vm_compute; split; congruence).
  assert (HN : 0 <= N rcvd_hdr < 65536) by (vm_compute; split; congruence).
  assert (Hi : B rcvd_hdr * N rcvd_hdr <= INT_MAX) by (vm_compute; congruence).
  assert (Hl : Z.of_nat (length t) = B rcvd_hdr * N rcvd_hdr) by reflexivity.
  assert (Hb : Forall is_byte t).
  { unfold t. repeat constructor; unfold is_byte; lia. }
  assert (Hok : (repair_byte_array rcvd_hdr t_hdr t).1 = None)
    by (vm_compute; reflexivity).
  split; [repeat first [assumption | split] |].
  exact (repair_flips_one_bit rcvd_hdr t_hdr t HB HN Hi Hl Hb Hok).
Defined.

Lemma list_eq_get (a a' : list Z) :
  length a = length a' ->
  (forall i, 0 <= i < Z.of_nat (length a) -> get a i = get a' i) -> a = a'.
Proof.
  intros Hl H. apply list_eq. intros k.
  destruct (decide (k < length a)%nat) as [Hk|Hk].
  - specialize (H (Z.of_nat k) ltac:(lia)). rewrite !get_of_nat in H.
    destruct (lookup_lt_is_Some_2 a k Hk) as [x Hx].
    destruct (lookup_lt_is_Some_2 a' k ltac:(lia)) as [y Hy].
    rewrite Hx, Hy in *. simpl in H. by subst.
  - rewrite !lookup_ge_None_2; [done | lia | lia].
Qed.

Lemma get_bit a i : Forall is_bit a -> is_bit (get a i).
Proof.
  intros Ha. unfold get. destruct (i <? 0); [by left |].
  destruct (a !! Z.to_nat i) as [x|] eqn:E; simpl; [| by left].
  eapply Forall_lookup_1; eauto.
Qed.

Lemma bit_flip_meets x y : is_bit x -> is_bit y -> x <> y -> Z.lxor y 1 = x.
Proof. intros [-> | ->] [-> | ->] H; done. Qed.

(** A header is rebuilt from its dimensions and arrays once its checksum is
    right. *)
Lemma ParityHdr_eq_of_arrays (h : ParityHdr) b n byte_array :
  confirm_check_sum h = true -> B h = b -> N h = n ->
  0 <= b < 65536 -> 0 <= n < 65536 ->
  row_parities (ParityHdr_of b n byte_array) = row_parities h ->
  col_parities (ParityHdr_of b n byte_array) = col_parities h ->
  ParityHdr_of b n byte_array = h.
Proof.
  intros Hc HB HN Hb Hn Hr Hcl.
  unfold ParityHdr_of in *. cbn [row_parities col_parities] in Hr, Hcl.
  rewrite !u16_id in * by lia. rewrite Hr, Hcl.
  unfold confirm_check_sum in Hc. apply Z.eqb_eq in Hc.
  destruct h as [cs b' n' rp cp]. simpl in *. subst b' n'.
  f_equal. by rewrite Hc.
Qed.

(** X11: a normal return of [repair_byte_array] always leaves a buffer whose
    parities are those of the trusted header: for a trusted header with a
    correct checksum, consistent arrays and column parities 0 or 1, and the
    observed header derived from the buffer with the same dimensions, the
    header of the buffer after the repair is the trusted header. *)
Theorem repair_restores_header (rcvd_hdr : ParityHdr) (t : list Z) :
  well_formed rcvd_hdr -> Forall is_bit (col_parities rcvd_hdr) ->
  0 < B rcvd_hdr -> 0 < N rcvd_hdr ->
  B rcvd_hdr * N rcvd_hdr <= INT_MAX ->
  Z.of_nat (length t) = B rcvd_hdr * N rcvd_hdr -> Forall is_byte t ->
  let t_hdr := ParityHdr_of (B rcvd_hdr) (N rcvd_hdr) t in
  (repair_byte_array rcvd_hdr t_hdr t).1 = None ->
  ParityHdr_of (B rcvd_hdr) (N rcvd_hdr) (repair_byte_array rcvd_hdr t_hdr t).2
  = rcvd_hdr.
Proof.
  intros Hwf Hbits Hb Hn Hint Hlen Hbytes t_hdr Hok.
  pose proof Hwf as [_ HB HN Hrl Hcl Hrb Hcb].
  set (b := B rcvd_hdr) in *. set (n := N rcvd_hdr) in *.
  assert (E : repair_byte_array rcvd_hdr t_hdr t
              = (None, (repair_byte_array rcvd_hdr t_hdr t).2)).
  { destruct (repair_byte_array rcvd_hdr t_hdr t) as [o x].
    simpl in *. by rewrite Hok. }
  pose proof (ParityHdr_of_well_formed b n t) as Hwt. fold t_hdr in Hwt.
  destruct (repair_success _ _ _ _ HB HN Hint E)
    as [Hc [[He Ht] | (He & _ & _ & i & j & Hf & Hp & Ht)]]; rewrite Ht.
  { symmetry. by apply hdr_eq_structural. }
  fold b n in Hp.
  destruct (find_error_locations_inr _ _ _ _ _ _ (proj2 HB) (proj2 HN) Hf)
    as (Hrow & Hk & Hcols & Hrows & Hm). fold b n in Hrow, Hcols, Hrows.
  destruct (mismatches_singleton _ _ _ _ Hcols) as (Hj & Hjd & Hjo).
  destruct (mismatches_singleton _ _ _ _ Hrows) as (_ & _ & Hio).
  set (row := i / 8) in *. set (k := i mod 8) in *.
  set (idx := 8 * (j * b + row) + k).
  assert (Hidx : 0 <= idx < 8 * (b * n)) by (unfold idx; lia).
  assert (Hq : idx / 8 = j * b + row).
  { symmetry. apply (Z.div_unique idx 8 _ k); unfold idx; lia. }
  assert (Hr8 : idx mod 8 = k).
  { symmetry. apply (Z.mod_unique idx 8 (j * b + row) k); unfold idx; lia. }
  assert (Hpm : (j * b + row) mod b = row).
  { symmetry. apply (Z.mod_unique _ b j row); lia. }
  assert (Hpd : (j * b + row) / b = j).
  { symmetry. apply (Z.div_unique _ b j row); lia. }
  assert (Hlt : length (row_parities t_hdr) = length (row_parities rcvd_hdr)
                /\ length (col_parities t_hdr) = length (col_parities rcvd_hdr)).
  { destruct Hwt as [_ _ _ Hr' Hc' _ _]. unfold t_hdr in Hr', Hc'.
    cbn [B N ParityHdr_of] in Hr', Hc'. rewrite u16_id in Hr', Hc' by lia.
    fold t_hdr in Hr', Hc'. lia. }
  assert (Hl' : forall s', length (row_parities (ParityHdr_of b n s'))
                           = length (row_parities rcvd_hdr)
                        /\ length (col_parities (ParityHdr_of b n s'))
                           = length (col_parities rcvd_hdr)).
  { intros s'. destruct (ParityHdr_of_well_formed b n s') as [_ _ _ Hr' Hc' _ _].
    cbn [B N ParityHdr_of] in Hr', Hc'. rewrite u16_id in Hr', Hc' by lia. lia. }
  apply ParityHdr_eq_of_arrays; try done.
  - apply list_eq_get; [apply Hl' |]. intros r Hr.
    rewrite (proj1 (Hl' _)) in Hr.
    rewrite (flip_rows b n t idx) by (try done; lia).
    rewrite Hq, Hpm, Hr8. fold t_hdr.
    destruct (decide (row = r)) as [<-|Hne].
    + assert (Hx : is_byte (get (row_parities rcvd_hdr) row)) by (by apply get_byte).
      assert (Hy : is_byte (get (row_parities t_hdr) row)).
      { apply get_byte. by destruct Hwt. }
      rewrite u8_id in Hm by (by apply lxor_byte).
      apply lxor_swap in Hm. rewrite Hm. apply lxor_cancel.
    + rewrite Z.lxor_0_r. symmetry. apply Hio; [lia | done].
  - apply list_eq_get; [apply Hl' |]. intros c Hc'.
    rewrite (proj2 (Hl' _)) in Hc'.
    rewrite (flip_cols b n t idx) by (try done; lia).
    rewrite Hq, Hpd. fold t_hdr.
    destruct (decide (j = c)) as [<-|Hne].
    + apply bit_flip_meets; [by apply get_bit | | done].
      apply get_bit. apply ParityHdr_of_col_bits.
    + rewrite Z.lxor_0_r. symmetry. apply Hjo; [lia | done].
Qed.

Lemma repair_restores_header_witness :
  let rcvd_hdr := ParityHdr_of 3 3 [0; 0; 0; 0; 0; 0; 0; 0; 0] in
  let t := [0; 0; 0; 0; 16; 0; 0; 0; 0] in
  let t_hdr := ParityHdr_of (B rcvd_hdr) (N rcvd_hdr) t in
  (well_formed rcvd_hdr /\ Forall is_bit (col_parities rcvd_hdr) /\
   0 < B rcvd_hdr /\ 0 < N rcvd_hdr /\ B rcvd_hdr * N rcvd_hdr <= INT_MAX /\
   Z.of_nat (length t) = B rcvd_hdr * N rcvd_hdr /\ Forall is_byte t /\
   (repair_byte_array rcvd_hdr t_hdr t).1 = None) /\
  ParityHdr_of (B rcvd_hdr) (N rcvd_hdr) (repair_byte_array rcvd_hdr t_hdr t).2
  = rcvd_hdr.
Proof.
  intros rcvd_hdr t t_hdr.
  assert (Hwf : well_formed rcvd_hdr) by apply ParityHdr_of_well_formed.
  assert (Hbits : Forall is_bit (col_parities rcvd_hdr))
    by apply ParityHdr_of_col_bits.
  assert (HB : 0 < B rcvd_hdr) by (vm_compute; reflexivity).
  assert (HN : 0 < N rcvd_hdr) by (vm_compute; reflexivity).
  assert (Hi : B rcvd_hdr * N rcvd_hdr <= INT_MAX) by (vm_compute; congruence).
  assert (Hl : Z.of_nat (length t) = B rcvd_hdr * N rcvd_hdr) by reflexivity.
  assert (Hb : Forall is_byte t).
  { unfold t. repeat constructor; unfold is_byte; lia. }
  assert (Hok : (repair_byte_array rcvd_hdr t_hdr t).1 = None)
    by (vm_compute; reflexivity).
  split; [repeat first [assumption | split] |].
  exact (repair_restores_header rcvd_hdr t Hwf Hbits HB HN Hi Hl Hb Hok).
Defined.

(** *** Several flipped bits *)

Section flips.
Variables (b n : Z).
Hypothesis Hb : 0 < b < 65536.
Hypothesis Hn : 0 < n < 65536.
Hypothesis Hint : b * n <= INT_MAX.


(** The header of a damaged buffer is the header of the original with each
    row parity XORed with the masks of the flips in that row and each column
    parity XORed with 1 for every flip in that column. *)
Lemma flip_bits_parities (l : list Z) (s : list Z) :
  Z.of_nat (length s) = b * n -> Forall is_byte s ->
  Forall (fun idx => 0 <= idx < 8 * (b * n)) l ->
  (forall r, 0 <= r < b ->
     get (row_parities (ParityHdr_of b n (flip_bits s l))) r
     = Z.lxor (get (row_parities (ParityHdr_of b n s)) r)
              (xor_list (row_error b r <$> l))) /\
  (forall c, 0 <= c < n ->
     get (col_parities (ParityHdr_of b n (flip_bits s l))) c
     = Z.lxor (get (col_parities (ParityHdr_of b n s)) c)
              (xor_list (col_error b c <$> l))).
Proof.
  revert s. induction l as [|idx l IH]; intros s Hlen Hs Hl.
  { split; intros; simpl; by rewrite Z.lxor_0_r. }
  apply Forall_cons in Hl as [Hidx Hl].
  destruct (IH (flip_bit s idx)) as [IHr IHc];
    [unfold flip_bit; by rewrite length_xor_at | by apply xor_at_byte | done |].
  split.
  - intros r Hr. change (flip_bits s (idx :: l)) with (flip_bits (flip_bit s idx) l).
    rewrite IHr by done. rewrite (flip_rows b n s idx) by (try done; lia).
    rewrite fmap_cons, xor_list_cons, Z.lxor_assoc. done.
  - intros c Hc. change (flip_bits s (idx :: l)) with (flip_bits (flip_bit s idx) l).
    rewrite IHc by done. rewrite (flip_cols b n s idx) by (try done; lia).
    rewrite fmap_cons, xor_list_cons, Z.lxor_assoc. done.
Qed.

Lemma flip_bits_get (l : list Z) (s : list Z) (i : Z) :
  Z.of_nat (length s) = b * n -> Forall is_byte s ->
  Forall (fun idx => 0 <= idx < 8 * (b * n)) l ->
  get (flip_bits s l) i
  = Z.lxor (get s i)
      (xor_list ((fun idx => if decide (i = idx / 8)
                             then Z.shiftr 128 (idx mod 8) else 0) <$> l)).
Proof.
  revert s. induction l as [|idx l IH]; intros s Hlen Hs Hl.
  { simpl. by rewrite Z.lxor_0_r. }
  apply Forall_cons in Hl as [Hidx Hl].
  change (flip_bits s (idx :: l)) with (flip_bits (flip_bit s idx) l).
  rewrite IH; [| unfold flip_bit; by rewrite length_xor_at
               | by apply xor_at_byte | done].
  rewrite get_flip_bit_any by (try done; lia).
  rewrite fmap_cons, xor_list_cons, Z.lxor_assoc. done.
Qed.

(** Equal parities give equal headers. *)
Lemma ParityHdr_of_eq_parities (s t : list Z) :
  (forall r, 0 <= r < b ->
     get (row_parities (ParityHdr_of b n t)) r
     = get (row_parities (ParityHdr_of b n s)) r) ->
  (forall c, 0 <= c < n ->
     get (col_parities (ParityHdr_of b n t)) c
     = get (col_parities (ParityHdr_of b n s)) c) ->
  ParityHdr_of b n t = ParityHdr_of b n s.
Proof.
  intros Hr Hc.
  pose proof (ParityHdr_of_well_formed b n s) as [_ _ _ Hrs Hcs _ _].
  pose proof (ParityHdr_of_well_formed b n t) as [_ _ _ Hrt Hct _ _].
  assert (HB : forall x, B (ParityHdr_of b n x) = b)
    by (intros; simpl; apply u16_id; lia).
  assert (HN : forall x, N (ParityHdr_of b n x) = n)
    by (intros; simpl; apply u16_id; lia).
  rewrite HB in Hrs, Hrt. rewrite HN in Hcs, Hct.
  apply ParityHdr_eq_of_arrays; try lia; try done.
  - apply ParityHdr_of_confirm.
  - apply list_eq_get; [lia |]. intros r Hr'. apply Hr. lia.
  - apply list_eq_get; [lia |]. intros c Hc'. apply Hc. lia.
Qed.
End flips.

(** X12: the parities see a damaged buffer only through its error pattern:
    after any list of bit flips, each row parity is the original one XORed
    with the masks of the flips that fall in that row, and each column
    parity the original one XORed with 1 for every flip in that column. *)
Theorem damaged_header_parities (b n : Z) (s l : list Z) :
  0 < b < 65536 -> 0 < n < 65536 -> b * n <= INT_MAX ->
  Z.of_nat (length s) = b * n -> Forall is_byte s ->
  Forall (fun idx => 0 <= idx < 8 * (b * n)) l ->
  (forall r, 0 <= r < b ->
     get (row_parities (ParityHdr_of b n (flip_bits s l))) r
     = Z.lxor (get (row_parities (ParityHdr_of b n s)) r)
              (xor_list (row_error b r <$> l))) /\
  (forall c, 0 <= c < n ->
     get (col_parities (ParityHdr_of b n (flip_bits s l))) c
     = Z.lxor (get (col_parities (ParityHdr_of b n s)) c)
              (xor_list (col_error b c <$> l))).
Proof. intros. by apply flip_bits_parities. Qed.

Lemma damaged_header_parities_witness :
  let s := [1; 2; 3; 4; 5; 6] in
  let l := [3; 20; 47] in
  (0 < 2 < 65536 /\ 0 < 3 < 65536 /\ 2 * 3 <= INT_MAX /\
   Z.of_nat (length s) = 2 * 3 /\ Forall is_byte s /\
   Forall (fun idx => 0 <= idx < 8 * (2 * 3)) l) /\
  (forall r, 0 <= r < 2 ->
     get (row_parities (ParityHdr_of 2 3 (flip_bits s l))) r
     = Z.lxor (get (row_parities (ParityHdr_of 2 3 s)) r)
              (xor_list (row_error 2 r <$> l))) /\
  (forall c, 0 <= c < 3 ->
     get (col_parities (ParityHdr_of 2 3 (flip_bits s l))) c
     = Z.lxor (get (col_parities (ParityHdr_of 2 3 s)) c)
              (xor_list (col_error 2 c <$> l))).
Proof.
  intros s l.
  assert (H1 : 0 < 2 < 65536) by lia. assert (H2 : 0 < 3 < 65536) by lia.
  assert (H3 : 2 * 3 <= INT_MAX) by (unfold INT_MAX; lia).
  assert (H4 : Z.of_nat (length s) = 2 * 3) by reflexivity.
  assert (H5 : Forall is_byte s).
  { unfold s. repeat constructor; unfold is_byte; lia. }
  assert (H6 : Forall (fun idx => 0 <= idx < 8 * (2 * 3)) l).
  { unfold l. repeat constructor; lia. }
  split; [repeat first [assumption | split] |]. exact (damaged_header_parities 2 3 s l H1 H2 H3 H4 H5 H6).
Defined.








Lemma xor_list_four (f : Z -> Z) (w x y z : Z) :
  xor_list (f <$> [w; x; y; z])
  = Z.lxor (f w) (Z.lxor (f x) (Z.lxor (f y) (f z))).
Proof. unfold xor_list. simpl. by rewrite Z.lxor_0_r. Qed.

Lemma bit_index_split (b c r k : Z) :
  0 < b -> 0 <= r < b -> 0 <= c -> 0 <= k < 8 ->
  (8 * (c * b + r) + k) / 8 = c * b + r /\ (8 * (c * b + r) + k) mod 8 = k /\
  (c * b + r) mod b = r /\ (c * b + r) / b = c.
Proof.
  intros Hb Hr Hc Hk.
  split; [symmetry; apply (Z.div_unique _ 8 _ k); lia |].
  split; [symmetry; apply (Z.mod_unique _ 8 (c * b + r) k); lia |].
  split; [symmetry; apply (Z.mod_unique _ b c r); lia |].
  symmetry; apply (Z.div_unique _ b c r); lia.
Qed.

Lemma lxor_rectangle x y : Z.lxor x (Z.lxor y (Z.lxor x y)) = 0.
Proof.
  rewrite (Z.lxor_comm x y), <- Z.lxor_assoc, (Z.lxor_comm x y).
  apply Z.lxor_nilpotent.
Qed.

Lemma lxor_rectangle_cols x y : Z.lxor x (Z.lxor x (Z.lxor y y)) = 0.
Proof. by rewrite Z.lxor_nilpotent, Z.lxor_0_r, Z.lxor_nilpotent. Qed.

Lemma rectangle_flips (b n : Z) (s : list Z) (r1 r2 c1 c2 k : Z) :
  0 < b < 65536 -> 0 < n < 65536 -> b * n <= INT_MAX ->
  Z.of_nat (length s) = b * n -> Forall is_byte s ->
  0 <= r1 < b -> 0 <= r2 < b -> r1 <> r2 ->
  0 <= c1 < n -> 0 <= c2 < n -> c1 <> c2 -> 0 <= k < 8 ->
  let t := flip_bits s [8 * (c1 * b + r1) + k; 8 * (c1 * b + r2) + k;
                        8 * (c2 * b + r1) + k; 8 * (c2 * b + r2) + k] in
  t <> s /\ ParityHdr_of b n t = ParityHdr_of b n s.
Proof.
  intros Hb Hn Hint Hlen Hs Hr1 Hr2 Hr Hc1 Hc2 Hc Hk t.
  set (l := [8 * (c1 * b + r1) + k; 8 * (c1 * b + r2) + k;
             8 * (c2 * b + r1) + k; 8 * (c2 * b + r2) + k]) in *.
  destruct (bit_index_split b c1 r1 k) as (Q11 & K11 & R11 & C11); try lia.
  destruct (bit_index_split b c1 r2 k) as (Q12 & K12 & R12 & C12); try lia.
  destruct (bit_index_split b c2 r1 k) as (Q21 & K21 & R21 & C21); try lia.
  destruct (bit_index_split b c2 r2 k) as (Q22 & K22 & R22 & C22); try lia.
  assert (Hl : Forall (fun idx => 0 <= idx < 8 * (b * n)) l).
  { unfold l. repeat constructor; nia. }
  destruct (flip_bits_parities b n Hb Hn Hint l s Hlen Hs Hl) as [Hrows Hcols].
  fold t in Hrows, Hcols.
  split.
  - intros E.
    assert (Hg : get t (c1 * b + r1) = get s (c1 * b + r1)) by (by rewrite E).
    unfold t in Hg. rewrite (flip_bits_get b n) in Hg by done.
    unfold l in Hg. rewrite xor_list_four in Hg.
    rewrite Q11, Q12, Q21, Q22, K11, K12, K21, K22 in Hg.
    rewrite decide_True in Hg by done.
    rewrite !decide_False in Hg by nia.
    rewrite !Z.lxor_0_r in Hg. symmetry in Hg.
    apply lxor_nonzero_neq in Hg; [done | by apply mask_nonzero].
  - apply ParityHdr_of_eq_parities; try done.
    + intros r Hr'. rewrite Hrows by done. unfold l. rewrite xor_list_four.
      unfold row_error. rewrite Q11, Q12, Q21, Q22, K11, K12, K21, K22.
      rewrite R11, R12, R21, R22. rewrite lxor_rectangle. apply Z.lxor_0_r.
    + intros c Hc'. rewrite Hcols by done. unfold l. rewrite xor_list_four.
      unfold col_error. rewrite Q11, Q12, Q21, Q22.
      rewrite C11, C12, C21, C22. rewrite lxor_rectangle_cols. apply Z.lxor_0_r.
Qed.

(** X14: four flips at the corners of a rectangle (the same bit of the bytes
    at two rows of two columns) cannot be seen: the damaged buffer has the
    header of the original, so [operator==] holds and [repair_byte_array]
    returns normally with the damaged buffer untouched. *)
Theorem rectangle_flips_undetected (b n : Z) (s : list Z) (r1 r2 c1 c2 k : Z) :
  0 < b < 65536 -> 0 < n < 65536 -> b * n <= INT_MAX ->
  Z.of_nat (length s) = b * n -> Forall is_byte s ->
  0 <= r1 < b -> 0 <= r2 < b -> r1 <> r2 ->
  0 <= c1 < n -> 0 <= c2 < n -> c1 <> c2 -> 0 <= k < 8 ->
  let t := flip_bits s [8 * (c1 * b + r1) + k; 8 * (c1 * b + r2) + k;
                        8 * (c2 * b + r1) + k; 8 * (c2 * b + r2) + k] in
  t <> s /\ ParityHdr_of b n t = ParityHdr_of b n s /\
  hdr_eq (ParityHdr_of b n s) (ParityHdr_of b n t) = true /\
  repair_byte_array (ParityHdr_of b n s) (ParityHdr_of b n t) t = (None, t).
Proof.
  intros Hb Hn Hint Hlen Hs Hr1 Hr2 Hr Hc1 Hc2 Hc Hk t.
  destruct (rectangle_flips b n s r1 r2 c1 c2 k) as [Hne Heq]; try done.
  fold t in Hne, Heq.
  split; [done | split; [done | split]].
  - rewrite Heq. apply hdr_eq_refl.
  - unfold repair_byte_array. rewrite Heq.
    by rewrite ParityHdr_of_confirm, hdr_eq_refl.
Qed.

Lemma rectangle_flips_undetected_witness :
  let s := [0; 0; 0; 0; 0; 0; 0; 0; 0] in
  let t := flip_bits s [8 * (0 * 3 + 0) + 5; 8 * (0 * 3 + 2) + 5;
                        8 * (1 * 3 + 0) + 5; 8 * (1 * 3 + 2) + 5] in
  (0 < 3 < 65536 /\ 3 * 3 <= INT_MAX /\ Z.of_nat (length s) = 3 * 3 /\
   Forall is_byte s /\ 0 <= 0 < 3 /\ 0 <= 2 < 3 /\ 0 <> 2 /\ 0 <= 1 < 3 /\
   0 <> 1 /\ 0 <= 5 < 8) /\
  t <> s /\ ParityHdr_of 3 3 t = ParityHdr_of 3 3 s /\
  hdr_eq (ParityHdr_of 3 3 s) (ParityHdr_of 3 3 t) = true /\
  repair_byte_array (ParityHdr_of 3 3 s) (ParityHdr_of 3 3 t) t = (None, t).
Proof.
  intros s t.
  assert (H1 : 0 < 3 < 65536) by lia.
  assert (H3 : 3 * 3 <= INT_MAX) by (unfold INT_MAX; lia).
  assert (H4 : Z.of_nat (length s) = 3 * 3) by reflexivity.
  assert (H5 : Forall is_byte s).
  { unfold s. repeat constructor; unfold is_byte; lia. }
  split; [repeat split; try lia; done |].
  apply (rectangle_flips_undetected 3 3 s 0 2 0 1 5); try done; lia.
Defined.

(** *** The demonstration driver *)

(** Whether [load_from_serialized] succeeds, and what it then leaves, does
    not depend on the header it is called on. *)
Lemma load_success_independent h h' ser_PH :
  (load_from_serialized h ser_PH).1 = (load_from_serialized h' ser_PH).1.
Proof.
  rewrite !load_from_serialized_cases.
  by destruct (prefix_ok ser_PH), (dims_ok ser_PH), (row_sum_ok ser_PH).
Qed.

Lemma load_success_loaded h ser_PH :
  (load_from_serialized h ser_PH).1 = true ->
  (load_from_serialized h ser_PH).2 = loaded ser_PH /\
  confirm_check_sum (loaded ser_PH) = true.
Proof.
  rewrite load_from_serialized_cases.
  by destruct (prefix_ok ser_PH), (dims_ok ser_PH), (row_sum_ok ser_PH).
Qed.

Lemma header_loop_first fuel received n h k :
  1 <= n <= k -> k < 30 -> (Z.to_nat (k - n) < fuel)%nat ->
  (forall k', n <= k' < k ->
     (load_from_serialized ParityHdr_default (received k')).1 = false) ->
  (load_from_serialized ParityHdr_default (received k)).1 = true ->
  header_loop fuel received n h = (k, loaded (received k)).
Proof.
  revert n h. induction fuel as [|fuel IH]; intros n h Hn Hk Hf Hfail Hok; [lia |].
  simpl. unfold MAX_HDR_TRYS. destruct (Z.ltb_spec n 30); [| lia].
  destruct (decide (n = k)) as [->|Hne].
  - rewrite (load_success_independent h ParityHdr_default), Hok.
    rewrite (load_success_independent _ h) in Hok.
    by rewrite (proj1 (load_success_loaded _ _ Hok)).
  - rewrite (load_success_independent h ParityHdr_default), Hfail by lia.
    rewrite s32_id by (unfold INT_MAX; lia).
    apply IH; try lia; [| done]. intros k' Hk'. apply Hfail. lia.
Qed.

Lemma header_loop_none fuel received n h :
  1 <= n <= 30 -> (Z.to_nat (30 - n) < fuel)%nat ->
  (forall k', n <= k' < 30 ->
     (load_from_serialized ParityHdr_default (received k')).1 = false) ->
  (header_loop fuel received n h).1 = 30.
Proof.
  revert n h. induction fuel as [|fuel IH]; intros n h Hn Hf Hfail; [lia |].
  simpl. unfold MAX_HDR_TRYS. destruct (Z.ltb_spec n 30); [| simpl; lia].
  rewrite (load_success_independent h ParityHdr_default), Hfail by lia.
  rewrite s32_id by (unfold INT_MAX; lia).
  apply IH; try lia. intros k' Hk'. apply Hfail. lia.
Qed.

(** X15: the header loop of [main] makes at most 29 transmissions
    ([n_transmits] runs from 1 while it is below [MAX_HDR_TRYS = 30]): if
    none of them is accepted the program exits, whatever a 30th would have
    brought.  Otherwise it goes on with the header of the first accepted
    transmission, whose checksum is confirmed, and nothing of the failed
    attempts remains in it. *)
Theorem receive_header_first_accepted (received : Z -> list Z) :
  ((forall k, 1 <= k < 30 ->
      (load_from_serialized ParityHdr_default (received k)).1 = false) ->
   receive_header received = None) /\
  (forall k, 1 <= k < 30 ->
     (load_from_serialized ParityHdr_default (received k)).1 = true ->
     (forall k', 1 <= k' < k ->
        (load_from_serialized ParityHdr_default (received k')).1 = false) ->
     receive_header received = Some (loaded (received k)) /\
     confirm_check_sum (loaded (received k)) = true).
Proof.
  split.
  - intros Hfail. unfold receive_header.
    rewrite (header_loop_none 30 received 1) by (try done; lia). done.
  - intros k Hk Hok Hfail. unfold receive_header.
    rewrite (header_loop_first 30 received 1 _ k) by (try done; lia).
    cbn [fst snd]. unfold MAX_HDR_TRYS.
    destruct (Z.geb_spec k 30); [lia |].
    split; [done |]. by apply (load_success_loaded ParityHdr_default).
Qed.

Lemma receive_header_first_accepted_witness :
  let s := [254; 254; 254; 254; 254; 254] in
  let received := fun k : Z => if k <? 3 then [1; 2; 3]
                               else serialize (ParityHdr_of 2 3 s) in
  receive_header received = Some (loaded (received 3)) /\
  confirm_check_sum (loaded (received 3)) = true.
Proof.
  intros s received.
  apply (proj2 (receive_header_first_accepted received) 3); [lia | |].
  - vm_compute. reflexivity.
  - intros k' Hk'. assert (k' = 1 \/ k' = 2) as [-> | ->] by lia;
      vm_compute; reflexivity.
Defined.

Lemma find_error_locations_exn rcvd_hdr t_hdr i0 j0 e :
  find_error_locations rcvd_hdr t_hdr i0 j0 = inl e ->
  exists msg, e = PC_Exception msg.
Proof.
  unfold find_error_locations.
  destruct (scan (col_parities rcvd_hdr) (col_parities t_hdr) (N rcvd_hdr) j0)
    as [c j].
  destruct (c =? 0); [intros [= <-]; by eexists |].
  destruct (c >? 1); [intros [= <-]; by eexists |].
  destruct (scan (row_parities rcvd_hdr) (row_parities t_hdr) (B rcvd_hdr) i0)
    as [c' i].
  destruct (c' =? 0); [intros [= <-]; by eexists |].
  destruct (c' >? 1); [intros [= <-]; by eexists |].
  destruct (bit_scan _) as [[fl fb] cnt].
  destruct (negb (cnt =? 1)); [intros [= <-]; by eexists | done].
Qed.

Lemma attempt_dims rcvd_hdr t :
  0 <= B rcvd_hdr < 65536 -> 0 <= N rcvd_hdr < 65536 ->
  ParityHdr_of (getB rcvd_hdr) (getN rcvd_hdr) t
  = ParityHdr_of (B rcvd_hdr) (N rcvd_hdr) t /\
  B (ParityHdr_of (B rcvd_hdr) (N rcvd_hdr) t) = B rcvd_hdr /\
  N (ParityHdr_of (B rcvd_hdr) (N rcvd_hdr) t) = N rcvd_hdr.
Proof.
  intros HB HN. unfold getB, getN. rewrite !u32_id by lia.
  split; [done |]. simpl. rewrite !u16_id by lia. done.
Qed.

(** The exceptions [repair_byte_array] can throw inside [main] are the ones
    [main] catches. *)
Lemma attempt_failure_caught rcvd_hdr t e :
  0 <= B rcvd_hdr < 65536 -> 0 <= N rcvd_hdr < 65536 ->
  confirm_check_sum rcvd_hdr = true ->
  (attempt rcvd_hdr t).1 = Some e ->
  (attempt rcvd_hdr t).2 = t /\ exists msg, e = PC_Exception msg.
Proof.
  intros HB HN Hc. unfold attempt.
  destruct (attempt_dims rcvd_hdr t HB HN) as (-> & EB & EN).
  destruct (hdr_eq _ rcvd_hdr) eqn:He; [done |].
  rewrite hdr_eq_sym in He.
  unfold repair_byte_array. rewrite Hc, He, EB, EN, !Z.eqb_refl. cbn [negb orb].
  destruct (find_error_locations _ _ (-1) (-1)) as [e'|[i j]] eqn:Hf; [| done].
  intros [= <-]. split; [done |]. by apply find_error_locations_exn in Hf.
Qed.

Lemma buffer_loop_first fuel received rcvd_hdr n t k :
  0 <= B rcvd_hdr < 65536 -> 0 <= N rcvd_hdr < 65536 ->
  confirm_check_sum rcvd_hdr = true ->
  0 <= n < k -> k <= 30 -> (Z.to_nat (k - n) <= fuel)%nat ->
  (forall k', n < k' < k -> (attempt rcvd_hdr (received k')).1 <> None) ->
  (attempt rcvd_hdr (received k)).1 = None ->
  buffer_loop fuel received rcvd_hdr n t
  = inr (k, (attempt rcvd_hdr (received k)).2).
Proof.
  intros HB HN Hc. revert n t.
  induction fuel as [|fuel IH]; intros n t Hn Hk Hf Hfail Hok; [lia |].
  simpl. unfold MAX_TRYS. destruct (Z.ltb_spec n 30); [| lia].
  rewrite s32_id by (unfold INT_MAX; lia).
  destruct (decide (n + 1 = k)) as [<-|Hne].
  - destruct (attempt rcvd_hdr (received (n + 1))) as [o t']. simpl in *.
    by rewrite Hok.
  - pose proof (Hfail (n + 1) ltac:(lia)) as Hn1.
    destruct (attempt rcvd_hdr (received (n + 1))) as [[e|] t'] eqn:Ea; [| done].
    destruct (attempt_failure_caught rcvd_hdr (received (n + 1)) e HB HN Hc)
      as (_ & msg & ->); [by rewrite Ea |].
    apply IH; try lia; [| done]. intros k' Hk'. apply Hfail. lia.
Qed.

Lemma buffer_loop_exhausted fuel received rcvd_hdr n t :
  0 <= B rcvd_hdr < 65536 -> 0 <= N rcvd_hdr < 65536 ->
  confirm_check_sum rcvd_hdr = true ->
  0 <= n <= 30 -> (Z.to_nat (30 - n) < fuel)%nat ->
  (forall k', n < k' <= 30 -> (attempt rcvd_hdr (received k')).1 <> None) ->
  exists t', buffer_loop fuel received rcvd_hdr n t = inr (30, t').
Proof.
  intros HB HN Hc. revert n t.
  induction fuel as [|fuel IH]; intros n t Hn Hf Hfail; [lia |].
  simpl. unfold MAX_TRYS. destruct (Z.ltb_spec n 30).
  - rewrite s32_id by (unfold INT_MAX; lia).
    pose proof (Hfail (n + 1) ltac:(lia)) as Hn1.
    destruct (attempt rcvd_hdr (received (n + 1))) as [[e|] t'] eqn:Ea; [| done].
    destruct (attempt_failure_caught rcvd_hdr (received (n + 1)) e HB HN Hc)
      as (_ & msg & ->); [by rewrite Ea |].
    apply IH; try lia. intros k' Hk'. apply Hfail. lia.
  - exists t. do 2 f_equal. lia.
Qed.

Lemma buffer_loop_caught fuel received rcvd_hdr n t e :
  0 <= B rcvd_hdr < 65536 -> 0 <= N rcvd_hdr < 65536 ->
  confirm_check_sum rcvd_hdr = true ->
  buffer_loop fuel received rcvd_hdr n t <> inl e.
Proof.
  intros HB HN Hc. revert n t.
  induction fuel as [|fuel IH]; intros n t; [done |].
  simpl. destruct (n <? MAX_TRYS); [| done].
  destruct (attempt rcvd_hdr (received (s32 (n + 1)))) as [[e'|] t'] eqn:Ea;
    [| done].
  destruct (attempt_failure_caught rcvd_hdr (received (s32 (n + 1))) e' HB HN Hc)
    as (_ & msg & ->); [by rewrite Ea |].
  apply IH.
Qed.

(** X16: the buffer loop of [main], entered with a header in range whose
    checksum is confirmed.  No exception escapes it: everything
    [repair_byte_array] can throw there is a [PC_Exception], which is caught
    and leads to a retransmission.  The first of the tries 1 to 29 that is
    accepted or repaired ends the reception with that buffer.  When none of
    them is, the program exits with "Too many byte array transmission
    attempts", also when the 30th try is accepted: [n_trys] has then reached
    [MAX_TRYS]. *)
Theorem receive_buffer_attempts (received : Z -> list Z) (rcvd_hdr : ParityHdr) :
  0 <= B rcvd_hdr < 65536 -> 0 <= N rcvd_hdr < 65536 ->
  confirm_check_sum rcvd_hdr = true ->
  (forall e, receive_buffer received rcvd_hdr <> Terminated e) /\
  (forall k, 1 <= k < 30 ->
     (attempt rcvd_hdr (received k)).1 = None ->
     (forall k', 1 <= k' < k -> (attempt rcvd_hdr (received k')).1 <> None) ->
     receive_buffer received rcvd_hdr = Received (attempt rcvd_hdr (received k)).2) /\
  ((forall k, 1 <= k < 30 -> (attempt rcvd_hdr (received k)).1 <> None) ->
   receive_buffer received rcvd_hdr = Too_many_attempts).
Proof.
  intros HB HN Hc. split; [| split].
  - intros e. unfold receive_buffer.
    destruct (buffer_loop 31 received rcvd_hdr 0 []) as [e'|[k t]] eqn:E.
    + by apply buffer_loop_caught in E.
    + by destruct (k >=? MAX_TRYS).
  - intros k Hk Hok Hfail. unfold receive_buffer.
    rewrite (buffer_loop_first 31 received rcvd_hdr 0 [] k)
      by (try done; try lia; intros; apply Hfail; lia).
    unfold MAX_TRYS. destruct (Z.geb_spec k 30); [lia | done].
  - intros Hfail. unfold receive_buffer.
    destruct (attempt rcvd_hdr (received 30)).1 as [e|] eqn:E30.
    + destruct (buffer_loop_exhausted 31 received rcvd_hdr 0 [] HB HN Hc)
        as [t' ->]; [lia | lia | | done].
      intros k' Hk'. destruct (decide (k' = 30)) as [->|]; [by rewrite E30 |].
      apply Hfail. lia.
    + rewrite (buffer_loop_first 31 received rcvd_hdr 0 [] 30)
        by (try done; try lia; intros; apply Hfail; lia).
      done.
Qed.

Lemma receive_buffer_attempts_witness :
  let rcvd_hdr := ParityHdr_of 3 3 [0; 0; 0; 0; 0; 0; 0; 0; 0] in
  let received := fun k : Z => if k =? 30 then [0; 0; 0; 0; 0; 0; 0; 0; 0]
                               else [128; 0; 0; 0; 16; 0; 0; 0; 0] in
  (0 <= B rcvd_hdr < 65536 /\ 0 <= N rcvd_hdr < 65536 /\
   confirm_check_sum rcvd_hdr = true) /\
  (attempt rcvd_hdr (received 30)).1 = None /\
  receive_buffer received rcvd_hdr = Too_many_attempts.
Proof.
  intros rcvd_hdr received.
  assert (HB : 0 <= B rcvd_hdr < 65536) by (vm_compute; split; congruence).
  assert (HN : 0 <= N rcvd_hdr < 65536) by (vm_compute; split; congruence).
  assert (Hc : confirm_check_sum rcvd_hdr = true) by apply ParityHdr_of_confirm.
  split; [repeat first [assumption | split] |].
  split; [vm_compute; reflexivity |].
  apply (proj2 (proj2 (receive_buffer_attempts received rcvd_hdr HB HN Hc))).
  intros k Hk. unfold received. destruct (Z.eqb_spec k 30); [lia |].
  vm_compute. congruence.
Defined.

Lemma flip_headers_differ b n s idx :
  0 < b < 65536 -> 0 < n < 65536 -> b * n <= INT_MAX ->
  Z.of_nat (length s) = b * n -> Forall is_byte s ->
  0 <= idx < 8 * (b * n) ->
  hdr_eq (ParityHdr_of b n s) (ParityHdr_of b n (flip_bit s idx)) = false.
Proof.
  intros Hb Hn Hint Hlen Hs Hidx.
  assert (Hr : 0 <= (idx / 8) mod b < b) by (apply Z.mod_pos_bound; lia).
  assert (Hk : 0 <= idx mod 8 < 8) by (apply Z.mod_pos_bound; lia).
  apply (hdr_eq_rows_differ _ _ ((idx / 8) mod b)).
  - simpl. rewrite u16_id by lia. done.
  - rewrite (flip_rows b n s idx) by (try done; lia).
    rewrite decide_True by done. apply lxor_nonzero_neq. by apply mask_nonzero.
Qed.

(** X17: the whole reception of [main] with a sound header transmission and
    at most one damaged bit in the first buffer transmission: the sender's
    header is loaded at the first try and the receiver ends with the
    sender's byte array, accepted as it is or repaired. *)
Theorem demo_recovers_single_flip
    (b n : Z) (s t : list Z) (hdr_received buf_received : Z -> list Z) :
  0 < b < 65536 -> 0 < n < 65536 -> b * n <= INT_MAX ->
  Z.of_nat (length s) = b * n -> Forall is_byte s -> Forall is_byte t ->
  t = s \/ differs_in_one_bit s t ->
  hdr_received 1 = serialize (ParityHdr_of b n s) -> buf_received 1 = t ->
  receive_header hdr_received = Some (ParityHdr_of b n s) /\
  receive_buffer buf_received (ParityHdr_of b n s) = Received s.
Proof.
  intros Hb Hn Hint Hlen Hs Ht Hst Hh Hbuf.
  set (h := ParityHdr_of b n s).
  assert (Hwf : well_formed h) by apply ParityHdr_of_well_formed.
  assert (Hc : confirm_check_sum h = true) by apply ParityHdr_of_confirm.
  assert (HB : B h = b) by (simpl; apply u16_id; lia).
  assert (HN : N h = n) by (simpl; apply u16_id; lia).
  assert (Hload : load_from_serialized ParityHdr_default (hdr_received 1) = (true, h)).
  { rewrite Hh. by apply load_serialize. }
  assert (Hatt : attempt h t = (None, s)).
  { unfold attempt.
    destruct (attempt_dims h t ltac:(lia) ltac:(lia)) as (-> & _ & _).
    rewrite HB, HN. destruct Hst as [-> | Hd].
    - fold h. by rewrite hdr_eq_refl.
    - destruct (differs_in_one_bit_flip s t Hs Ht Hd) as (idx & Hidx & ->).
      rewrite hdr_eq_sym. unfold h.
      rewrite flip_headers_differ by (try done; lia).
      apply repair_flip; try done; lia. }
  split.
  - unfold receive_header.
    rewrite (header_loop_first 30 hdr_received 1 _ 1);
      try lia; try (by rewrite Hload); try (intros; lia).
    cbn [fst snd]. change (1 >=? MAX_HDR_TRYS) with false. cbv iota.
    f_equal.
    destruct (load_success_loaded ParityHdr_default (hdr_received 1)) as [E _];
      [by rewrite Hload |].
    rewrite <- E. by rewrite Hload.
  - unfold receive_buffer.
    rewrite (buffer_loop_first 31 buf_received h 0 [] 1);
      try lia; try done; rewrite ?Hbuf, ?Hatt; try done; try (intros; lia).
Qed.

Lemma demo_recovers_single_flip_witness :
  let s := [254; 254; 254; 254; 254; 254] in
  let t := [254; 254; 254; 250; 254; 254] in
  let hdr_received := fun _ : Z => serialize (ParityHdr_of 2 3 s) in
  let buf_received := fun _ : Z => t in
  (0 < 2 < 65536 /\ 0 < 3 < 65536 /\ 2 * 3 <= INT_MAX /\
   Z.of_nat (length s) = 2 * 3 /\ Forall is_byte s /\ Forall is_byte t /\
   (t = s \/ differs_in_one_bit s t)) /\
  receive_header hdr_received = Some (ParityHdr_of 2 3 s) /\
  receive_buffer buf_received (ParityHdr_of 2 3 s) = Received s.
Proof.
  intros s t hdr_received buf_received.
  assert (H1 : 0 < 2 < 65536) by lia. assert (H2 : 0 < 3 < 65536) by lia.
  assert (H3 : 2 * 3 <= INT_MAX) by (unfold INT_MAX; lia).
  assert (H4 : Z.of_nat (length s) = 2 * 3) by reflexivity.
  assert (H5 : Forall is_byte s).
  { unfold s. repeat constructor; unfold is_byte; lia. }
  assert (H6 : Forall is_byte t).
  { unfold t. repeat constructor; unfold is_byte; lia. }
  assert (H7 : t = s \/ differs_in_one_bit s t).
  { right. split; [reflexivity | vm_compute; reflexivity]. }
  split; [repeat first [assumption | split] |].
  exact (demo_recovers_single_flip 2 3 s t hdr_received buf_received
           H1 H2 H3 H4 H5 H6 H7 eq_refl eq_refl).
Defined.

(** [idx < 8 * len], an [int] compared with a [size_t]: a negative [idx]
    converts to a value above every buffer size. *)
Lemma transmit_test idx len :
  -2147483648 <= idx <= INT_MAX -> 0 <= 8 * len <= INT_MAX ->
  (u64 idx <? u64 (8 * len)) = bool_decide (0 <= idx < 8 * len).
Proof.
  unfold INT_MAX, u64. intros Hi Hl.
  rewrite (Z.mod_small (8 * len)) by lia.
  destruct (decide (0 <= idx)) as [Hp|Hp].
  - rewrite Z.mod_small by lia.
    destruct (Z.ltb_spec idx (8 * len)).
    + by rewrite bool_decide_eq_true_2 by lia.
    + by rewrite bool_decide_eq_false_2 by lia.
  - rewrite bool_decide_eq_false_2 by lia.
    replace idx with (idx + 18446744073709551616 + -1 * 18446744073709551616)
      by lia.
    rewrite Z.mod_add by lia. rewrite Z.mod_small by lia.
    apply Z.ltb_ge. lia.
Qed.

Lemma s32_range x : -2147483648 <= s32 x <= INT_MAX.
Proof.
  unfold s32, INT_MAX.
  pose proof (Z.mod_pos_bound (x + 2147483648) 4294967296 ltac:(lia)). lia.
Qed.

Lemma s32_step idx g :
  0 <= idx <= INT_MAX -> 0 <= g <= INT_MAX ->
  s32 (idx + g) = idx + g \/ s32 (idx + g) < 0.
Proof.
  intros Hi Hg. destruct (decide (idx + g <= INT_MAX)) as [H|H].
  - left. apply s32_id. lia.
  - right. unfold s32, INT_MAX in *.
    replace (idx + g + 2147483648)
      with (idx + g - 2147483648 + 1 * 4294967296) by lia.
    rewrite Z.mod_add by lia. rewrite Z.mod_small by lia. lia.
Qed.

Lemma transmit_loop_flips samples len idx s t :
  0 <= 8 * len <= INT_MAX -> Forall (fun g => 0 <= g <= INT_MAX) samples ->
  -2147483648 <= idx <= INT_MAX ->
  transmit_loop samples len idx s = Some t ->
  exists l, t = flip_bits s l /\ Forall (fun i => idx <= i < 8 * len) l /\
            Sorted Z.le l /\ (length l <= length samples)%nat /\
            (~ 0 <= idx < 8 * len -> l = []).
Proof.
  intros Hl Hg. revert idx s.
  induction Hg as [|g samples Hg0 Hg IH]; intros idx s Hi; simpl;
    rewrite transmit_test by done; case_bool_decide as Ht; try done.
  - intros [= <-]. exists []. repeat split; [constructor | constructor | done].
  - pose proof (s32_range (idx + g)) as Hr.
    rewrite transmit_test by done. case_bool_decide as Ht'.
    + destruct (s32_step idx g ltac:(lia) Hg0) as [E|E]; [| lia].
      intros Hrun. destruct (IH _ _ Hr Hrun) as (l & -> & Hin & Hs & Hn & _).
      exists (s32 (idx + g) :: l). split; [done |].
      split; [| split; [| split]].
      * constructor; [lia |]. eapply Forall_impl; [exact Hin |].
        simpl. intros. lia.
      * constructor; [done |]. destruct Hin; constructor. lia.
      * simpl. lia.
      * done.
    + intros Hrun. destruct (IH _ _ Hr Hrun) as (l & -> & _ & _ & _ & Hnil).
      rewrite (Hnil Ht'). exists [].
      repeat split; [constructor | constructor | simpl; lia].
  - intros [= <-]. exists []. repeat split; [constructor | constructor |].
    simpl. lia.
Qed.

Lemma transmit_loop_ends samples len idx s :
  0 <= 8 * len <= INT_MAX -> Forall (fun g => 0 <= g <= INT_MAX) samples ->
  -2147483648 <= idx <= INT_MAX ->
  idx < 0 \/ 8 * len <= idx + sum_list_Z samples ->
  is_Some (transmit_loop samples len idx s).
Proof.
  intros Hl Hg. revert idx s.
  induction Hg as [|g samples Hg0 Hg IH]; intros idx s Hi Hsum; simpl;
    rewrite transmit_test by done; case_bool_decide as Ht; try by eexists.
  - unfold sum_list_Z in Hsum. simpl in Hsum. lia.
  - rewrite sum_list_Z_cons in Hsum.
    apply IH; [apply s32_range |].
    destruct (s32_step idx g ltac:(lia) Hg0) as [E|E]; [rewrite E | by left].
    right. lia.
Qed.

Lemma length_flip_bits s l : length (flip_bits s l) = length s.
Proof.
  revert s. induction l as [|i l IH]; intros s; [done |].
  simpl. rewrite IH. apply length_xor_at.
Qed.

Lemma flip_bits_byte s l : Forall is_byte s -> Forall is_byte (flip_bits s l).
Proof.
  revert s. induction l as [|i l IH]; intros s Hs; [done |].
  simpl. apply IH. by apply xor_at_byte.
Qed.

(** X18: [transmit] on a buffer of [len] bytes with [8 * len] in the range
    of [int], for draws of the geometric distribution that are non-negative
    [int]s.  With the error rate below the threshold the result is an exact
    copy.  The loop ends as soon as the draws add up to [8 * len]; what it
    returns is the input with some bits flipped, at most one per draw, at
    non-decreasing positions inside the buffer (a draw of [0] flips the same
    bit again): the length is kept and no byte outside the array is
    written. *)
Theorem transmit_flips_bits (quiet : bool) (samples cs : list Z) (len : Z) :
  Z.of_nat (length cs) = len -> 8 * len <= INT_MAX ->
  Forall (fun g => 0 <= g <= INT_MAX) samples ->
  (quiet = true -> transmit quiet samples cs len = Some cs) /\
  (8 * len <= sum_list_Z samples -> is_Some (transmit quiet samples cs len)) /\
  (forall t, transmit quiet samples cs len = Some t ->
     length t = length cs /\ (Forall is_byte cs -> Forall is_byte t) /\
     exists l, t = flip_bits cs l /\ Forall (fun i => 0 <= i < 8 * len) l /\
               Sorted Z.le l /\ (length l <= length samples)%nat).
Proof.
  intros Hlen Hl Hg. unfold transmit. rewrite <- Hlen, read_bytes_all.
  assert (Hl' : 0 <= 8 * Z.of_nat (length cs) <= INT_MAX) by lia.
  split; [by intros -> |]. split.
  - intros Hsum. destruct quiet; [done |].
    apply transmit_loop_ends; try done; unfold INT_MAX; lia.
  - intros t Ht.
    assert (exists l, t = flip_bits cs l /\
              Forall (fun i => 0 <= i < 8 * Z.of_nat (length cs)) l /\
              Sorted Z.le l /\ (length l <= length samples)%nat)
      as (l & -> & Hin & Hs & Hn).
    { destruct quiet.
      - injection Ht as <-. exists [].
        repeat split; [constructor | constructor | simpl; lia].
      - destruct (transmit_loop_flips samples _ 0 cs t Hl' Hg) as (l & H);
          [unfold INT_MAX; lia | done |].
        exists l. tauto. }
    split; [apply length_flip_bits |].
    split; [apply flip_bits_byte | by exists l].
Qed.

Lemma transmit_flips_bits_witness :
  let cs := [254; 254; 254] in
  let samples := [3; 0; 9; 40] in
  (Z.of_nat (length cs) = 3 /\ 8 * 3 <= INT_MAX /\
   Forall (fun g => 0 <= g <= INT_MAX) samples) /\
  transmit false samples cs 3 = Some [254; 246; 254] /\
  is_Some (transmit false samples cs 3).
Proof.
  intros cs samples.
  assert (H1 : Z.of_nat (length cs) = 3) by reflexivity.
  assert (H2 : 8 * 3 <= INT_MAX) by (unfold INT_MAX; lia).
  assert (H3 : Forall (fun g => 0 <= g <= INT_MAX) samples).
  { unfold samples, INT_MAX. repeat constructor; lia. }
  split; [repeat first [assumption | split] |].
  split; [vm_compute; reflexivity |].
  apply (proj1 (proj2 (transmit_flips_bits false samples cs 3 H1 H2 H3))).
  vm_compute. congruence.
Defined.

(** *** A miscorrection *)



